(** * envconfig: typed access to environment variables

    A shallow embedding of the Go package [envconfig] (files [setter.go]
    and the accessor file that holds [LoadStruct] and the [Get*] family),
    together with the parts of the Go standard library the package calls
    ([strconv.ParseBool], [strconv.ParseInt], [strconv.Atoi],
    [strings.Split], [strings.TrimSpace], [os.Getenv], [os.LookupEnv] and
    the fragment of [reflect] used to write struct fields).

    Go strings are byte sequences; they are modelled by [string], whose
    characters are the 256 byte values.  Go integers are modelled by [Z]
    with the conversions that truncate written out.  The process
    environment is a finite map from names to values. *)

From Stdlib Require Import ZArith Ascii String List Lia Bool.
From stdpp Require Import base option list strings gmap.

Local Open Scope string_scope.
Local Open Scope list_scope.
Local Open Scope Z_scope.

(** ** Platform *)

(** The width of Go's [int] depends on the platform. *)
Inductive Arch : Set := Arch32 | Arch64.

Definition IntSize (a : Arch) : Z :=
  match a with Arch32 => 32 | Arch64 => 64 end.

(** Conversion of an [int64] to a signed integer of [w] bits, as done by
    Go's [int(x)]: the low [w] bits, read in two's complement. *)
Definition wrapSigned (w : Z) (x : Z) : Z :=
  (x + 2 ^ (w - 1)) mod 2 ^ w - 2 ^ (w - 1).

(** ** reflect *)

Module reflect.

Inductive Kind : Set :=
| Invalid | Bool | Int | Int8 | Int16 | Int32 | Int64
| Uint | Uint8 | Uint16 | Uint32 | Uint64 | Uintptr
| Float32 | Float64 | Complex64 | Complex128
| Array | Chan | Func | Interface | Map | Pointer | Slice
| String | Struct | UnsafePointer.

#[global] Instance Kind_eq_dec : EqDecision Kind.
Proof. solve_decision. Defined.

(** The contents of a variable seen through reflection.  Integers carry
    their kind in the constructor; a slice or an array carries the kind
    of its elements and the elements themselves when they are integers
    (for other element kinds only the length of the list is meaningful:
    the package never reads or writes such elements).  A nil slice and an
    empty slice both have no elements and are not told apart.  [DOther k]
    is a value of any kind the package does not handle. *)
Inductive data : Set :=
| DString (s : string)
| DBool (b : bool)
| DInt (n : Z)
| DInt64 (n : Z)
| DSlice (elem : Kind) (xs : list Z)
| DArray (elem : Kind) (xs : list Z)
| DOther (k : Kind).

(** A [reflect.Value] for a variable: whether it may be written, and
    what it holds. *)
Record Value : Set := mkValue { CanSet : bool; Data : data }.

Definition KindOf (v : Value) : Kind :=
  match Data v with
  | DString _ => String
  | DBool _ => Bool
  | DInt _ => Int
  | DInt64 _ => Int64
  | DSlice _ _ => Slice
  | DArray _ _ => Array
  | DOther k => k
  end.

(** [v.Type().Elem().Kind()]. *)
Definition ElemKind (v : Value) : Kind :=
  match Data v with
  | DSlice ek _ | DArray ek _ => ek
  | _ => Invalid
  end.

(** [v.Len()]. *)
Definition Len (v : Value) : nat :=
  match Data v with
  | DSlice _ xs | DArray _ xs => length xs
  | DString s => String.length s
  | _ => O
  end.

Definition withData (v : Value) (d : data) : Value :=
  {| CanSet := CanSet v; Data := d |}.

Definition SetString (v : Value) (s : string) : Value := withData v (DString s).
Definition SetBool (v : Value) (b : bool) : Value := withData v (DBool b).

Section Platform.
Variable arch : Arch.

(** What [SetInt(x)] stores in a variable of kind [k]: for [int] the
    conversion [int(x)], for [int64] the value itself. *)
Definition storeInt (k : Kind) (x : Z) : Z :=
  match k with
  | Int => wrapSigned (IntSize arch) x
  | _ => x
  end.

(** [v.SetInt(x)] for [v] of kind [Int] or [Int64] (Go panics on the
    other kinds; the package calls it on these two only).  Like every
    write of [reflect], it panics on a value that is not settable; the
    writes below do not model the panic, and [setValue] reaches them on
    settable fields only. *)
Definition SetInt (v : Value) (x : Z) : Value :=
  match Data v with
  | DInt _ => withData v (DInt (storeInt Int x))
  | DInt64 _ => withData v (DInt64 x)
  | _ => v
  end.

(** [v.Index(i).SetInt(x)] for a slice or an array of integers.  Go
    panics when [i] is out of range; every call of the package is in
    range, and the list update below leaves the list alone there.  Go
    also panics when [v] is not settable. *)
Definition IndexSetInt (v : Value) (i : nat) (x : Z) : Value :=
  match Data v with
  | DSlice ek xs => withData v (DSlice ek (<[i := storeInt ek x]> xs))
  | DArray ek xs => withData v (DArray ek (<[i := storeInt ek x]> xs))
  | _ => v
  end.
End Platform.

(** [reflect.MakeSlice(typ, n, n)]: a fresh slice of [n] zero elements. *)
Definition MakeSlice (elem : Kind) (n : nat) : Value :=
  {| CanSet := true; Data := DSlice elem (replicate n 0) |}.

(** [v.Set(x)]: [v] takes the contents of [x]; Go panics when [v] is
    not settable. *)
Definition Set_ (v x : Value) : Value := withData v (Data x).

End reflect.

(** ** Errors *)

(** The two sentinel errors of [strconv]. *)
Inductive numErr : Set := ErrSyntax | ErrRange.

(** The errors the package can return.  [NumError] is [*strconv.NumError];
    the other constructors are the [fmt.Errorf] calls of the package, one
    per format string, with the arguments of the format ([%w] wraps the
    cause). *)
Inductive error : Set :=
| NumError (Fn : string) (Num : string) (Err : numErr)
| ErrUnsupportedKind (k : reflect.Kind)
    (* "unsupported kind: %s" *)
| ErrUnsupportedElem (k : reflect.Kind)
    (* "unsupported slice/array element type: %s" *)
| ErrArrayLength (got expected : nat)
    (* "array length mismatch: got %d values, expected %d" *)
| ErrInvalidElem (i : nat) (cause : error)
    (* "invalid int value at index %d: %w" (setSliceOrArray, parseIntSlice) *)
| ErrInvalidElem64 (i : nat) (cause : error)
    (* "invalid int64 value at index %d: %w" (parseInt64Slice) *)
| ErrEnv (envName : string) (cause : error)
    (* "env %s: %w" *)
| ErrCfg.
    (* "cfg must be pointer to struct" *)

(** A Go result pair [(v, err)]: a value when [err == nil], the error
    otherwise. *)
Inductive result (A : Type) : Type :=
| Ok (v : A)
| Err (e : error).
Arguments Ok {A} v.
Arguments Err {A} e.

Definition isOk {A} (r : result A) : bool :=
  match r with Ok _ => true | Err _ => false end.

(** [err.Unwrap()]: the cause wrapped by [%w], if any. *)
Definition Unwrap (e : error) : option error :=
  match e with
  | ErrInvalidElem _ c | ErrInvalidElem64 _ c | ErrEnv _ c => Some c
  | _ => None
  end.

(** ** Bytes *)

Definition byte (c : ascii) : Z := Z.of_N (N_of_ascii c).

Definition isEmpty (s : string) : bool :=
  match s with "" => true | String _ _ => false end.

(** The slices [s[:n]] and [s[n:]].  Go panics when [n] exceeds the
    length; every slice the package takes is within bounds. *)
Fixpoint sliceTo (n : nat) (s : string) : string :=
  match n, s with
  | S n, String c r => String c (sliceTo n r)
  | _, _ => ""
  end.

Fixpoint sliceFrom (n : nat) (s : string) : string :=
  match n, s with
  | S n, String _ r => sliceFrom n r
  | _, _ => s
  end.

(** ** unicode/utf8 *)

Module utf8.

(** The table [first] of the Go library for a lead byte of a multi-byte
    encoding: the size of the encoding and the range accepted for its
    second byte.  [None] for an ASCII byte and for a byte that cannot
    start an encoding. *)
Definition first (b0 : Z) : option (nat * Z * Z) :=
  if (194 <=? b0) && (b0 <=? 223) then Some (2%nat, 128, 191)
  else if b0 =? 224 then Some (3%nat, 160, 191)
  else if (225 <=? b0) && (b0 <=? 236) then Some (3%nat, 128, 191)
  else if b0 =? 237 then Some (3%nat, 128, 159)
  else if (238 <=? b0) && (b0 <=? 239) then Some (3%nat, 128, 191)
  else if b0 =? 240 then Some (4%nat, 144, 191)
  else if (241 <=? b0) && (b0 <=? 243) then Some (4%nat, 128, 191)
  else if b0 =? 244 then Some (4%nat, 128, 143)
  else None.

(** Whether a byte is outside the range of a continuation byte. *)
Definition notCont (b : Z) : bool := (b <? 128) || (191 <? b).

(** The size reported by [utf8.DecodeRuneInString(s)]: the width of the
    encoding that starts [s], 1 when the bytes there are not a valid
    encoding, 0 for the empty string. *)
Definition runeSize (s : string) : nat :=
  match s with
  | "" => 0%nat
  | String c0 r0 =>
      match first (byte c0) with
      | None => 1%nat
      | Some (sz, lo, hi) =>
          if (String.length s <? sz)%nat then 1%nat
          else
            match r0 with
            | "" => 1%nat
            | String c1 r1 =>
                if (byte c1 <? lo) || (hi <? byte c1) then 1%nat
                else if (sz <=? 2)%nat then 2%nat
                else
                  match r1 with
                  | "" => 1%nat
                  | String c2 r2 =>
                      if notCont (byte c2) then 1%nat
                      else if (sz <=? 3)%nat then 3%nat
                      else
                        match r2 with
                        | "" => 1%nat
                        | String c3 _ =>
                            if notCont (byte c3) then 1%nat else 4%nat
                        end
                  end
            end
      end
  end.

(** [utf8.RuneCountInString(s)]: the number of runes met when decoding
    [s] from left to right; [fuel] is the length of [s] at the call. *)
Fixpoint RuneCount_loop (fuel : nat) (s : string) : nat :=
  match fuel with
  | O => O
  | S fuel =>
      if isEmpty s then O
      else S (RuneCount_loop fuel (sliceFrom (runeSize s) s))
  end.

Definition RuneCountInString (s : string) : nat :=
  RuneCount_loop (String.length s) s.

End utf8.

(** ** strconv *)

Module strconv.

(** [strconv.ParseBool]. *)
Definition trueTokens : list string := ["1"; "t"; "T"; "true"; "TRUE"; "True"].
Definition falseTokens : list string := ["0"; "f"; "F"; "false"; "FALSE"; "False"].

Definition ParseBool (str : string) : result bool :=
  if bool_decide (str ∈ trueTokens) then Ok true
  else if bool_decide (str ∈ falseTokens) then Ok false
  else Err (NumError "ParseBool" str ErrSyntax).

(** [strconv.FormatBool]. *)
Definition FormatBool (b : bool) : string := if b then "true" else "false".

Definition maxUint64 : Z := 2 ^ 64 - 1.

(** [lower(c)]: [c | ('x' - 'X')]. *)
Definition lower (c : Z) : Z := Z.lor c 32.

(** The digit loop of [strconv.ParseUint] for base 10 and a non-zero
    [bitSize]: [n] is the value accumulated so far (a [uint64]).  The loop
    returns the pair [(value, error kind)] of the Go function. *)
Fixpoint ParseUint_loop (maxVal : Z) (n : Z) (s : string) : Z * option numErr :=
  match s with
  | "" => (n, None)
  | String ch rest =>
      let c := byte ch in
      let d :=
        if (48 <=? c) && (c <=? 57) then Some (c - 48)
        else if (97 <=? lower c) && (lower c <=? 122) then Some (lower c - 97 + 10)
        else None in
      match d with
      | None => (0, Some ErrSyntax)
      | Some d =>
          if 10 <=? d then (0, Some ErrSyntax)
          else if maxUint64 / 10 + 1 <=? n then (maxVal, Some ErrRange)
          else
            let n := n * 10 in
            let n1 := (n + d) mod 2 ^ 64 in
            if (n1 <? n) || (maxVal <? n1) then (maxVal, Some ErrRange)
            else ParseUint_loop maxVal n1 rest
      end
  end.

Section Platform.
Variable arch : Arch.

(** [strconv.ParseUint(s, 10, bitSize)]; [bitSize = 0] stands for the
    platform's [int]. *)
Definition ParseUint (s : string) (bitSize : Z) : Z * option numErr :=
  if isEmpty s then (0, Some ErrSyntax)
  else
    let bitSize := if bitSize =? 0 then IntSize arch else bitSize in
    ParseUint_loop (2 ^ bitSize - 1) 0 s.

(** [strconv.ParseInt(s, 10, bitSize)], reporting its errors under the
    function name [fn] ([Atoi] renames them). *)
Definition ParseInt_as (fn : string) (s : string) (bitSize : Z) : result Z :=
  let s0 := s in
  match s with
  | "" => Err (NumError fn s0 ErrSyntax)
  | String c0 rest =>
      let neg := Ascii.eqb c0 "-" in
      let s := if Ascii.eqb c0 "+" || neg then rest else s in
      let '(un, err) := ParseUint s bitSize in
      match err with
      | Some ErrSyntax => Err (NumError fn s0 ErrSyntax)
      | _ =>
          let bitSize := if bitSize =? 0 then IntSize arch else bitSize in
          let cutoff := 2 ^ (bitSize - 1) in
          if negb neg && (cutoff <=? un) then Err (NumError fn s0 ErrRange)
          else if neg && (cutoff <? un) then Err (NumError fn s0 ErrRange)
          else Ok (if neg then - un else un)
      end
  end.

Definition ParseInt (s : string) (bitSize : Z) : result Z :=
  ParseInt_as "ParseInt" s bitSize.

(** [strconv.Atoi(s)]: "equivalent to ParseInt(s, 10, 0), converted to
    type int", with the error's function name set to [Atoi]. *)
Definition Atoi (s : string) : result Z :=
  ParseInt_as "Atoi" s 0.

End Platform.

(** Decimal rendering, [strconv.FormatInt(n, 10)] and [strconv.Itoa]:
    the digits of [|n|], most significant first, after a minus sign when
    [n] is negative.  [fuel] bounds the number of digits; [FormatUint]
    supplies one more than the position of the highest bit of [n]. *)
Definition digitChar (d : Z) : ascii := ascii_of_N (Z.to_N (48 + d)).

Fixpoint formatBits (fuel : nat) (n : Z) : string :=
  match fuel with
  | O => ""
  | S fuel =>
      if n <? 10 then String (digitChar n) ""
      else (formatBits fuel (n / 10) ++ String (digitChar (n mod 10)) "")%string
  end.

Definition FormatUint (n : Z) : string :=
  formatBits (S (Z.to_nat (Z.log2 n))) n.

Definition Itoa (n : Z) : string :=
  if n <? 0 then String "-" (FormatUint (- n)) else FormatUint n.

End strconv.

(** ** strings *)

Module strings.

(** [strings.Split(s, sep)] for a one-byte separator: the substrings
    between the occurrences of [sep]; never empty, [[""]] for [s = ""]. *)
Fixpoint Split (s : string) (sep : ascii) : list string :=
  match s with
  | "" => [""]
  | String c rest =>
      if Ascii.eqb c sep then "" :: Split rest sep
      else
        match Split rest sep with
        | tok :: toks => String c tok :: toks
        | [] => [String c ""]
        end
  end.

(** [strings.Join(elems, sep)]. *)
Definition Join (elems : list string) (sep : string) : string :=
  String.concat sep elems.

(** [unicode.IsSpace] on the rune that starts the byte sequence [s]:
    the rest of [s] after that rune when it is a white space, [None]
    otherwise.  White space is U+0009..U+000D, U+0020, U+0085, U+00A0,
    U+1680, U+2000..U+200A, U+2028, U+2029, U+202F, U+205F, U+3000, each
    in its UTF-8 encoding; a byte sequence that is not valid UTF-8 decodes
    to U+FFFD, which is not a white space. *)
Definition dropSpaceRune (s : string) : option string :=
  match s with
  | String c1 r1 =>
      let b1 := byte c1 in
      if ((9 <=? b1) && (b1 <=? 13)) || (b1 =? 32) then Some r1
      else
        match r1 with
        | String c2 r2 =>
            let b2 := byte c2 in
            if (b1 =? 194) && ((b2 =? 133) || (b2 =? 160)) then Some r2
            else
              match r2 with
              | String c3 r3 =>
                  let b3 := byte c3 in
                  if (b1 =? 225) && (b2 =? 154) && (b3 =? 128) then Some r3
                  else if (b1 =? 226) && (b2 =? 128) &&
                          (((128 <=? b3) && (b3 <=? 138)) ||
                           (b3 =? 168) || (b3 =? 169) || (b3 =? 175))
                  then Some r3
                  else if (b1 =? 226) && (b2 =? 129) && (b3 =? 159) then Some r3
                  else if (b1 =? 227) && (b2 =? 128) && (b3 =? 128) then Some r3
                  else None
              | "" => None
              end
        | "" => None
        end
  | "" => None
  end.

(** The same test on the rune that ends a byte sequence, given the
    sequence reversed: [utf8.DecodeLastRuneInString] walks back to the
    start byte of the last rune and decodes from there, so the last rune
    is a white space exactly when the sequence ends with one of the
    encodings above. *)
Definition dropSpaceRuneRev (s : string) : option string :=
  match s with
  | String c1 r1 =>
      let b1 := byte c1 in
      if ((9 <=? b1) && (b1 <=? 13)) || (b1 =? 32) then Some r1
      else
        match r1 with
        | String c2 r2 =>
            let b2 := byte c2 in
            if ((b1 =? 133) || (b1 =? 160)) && (b2 =? 194) then Some r2
            else
              match r2 with
              | String c3 r3 =>
                  let b3 := byte c3 in
                  if (b1 =? 128) && (b2 =? 154) && (b3 =? 225) then Some r3
                  else if (((128 <=? b1) && (b1 <=? 138)) ||
                           (b1 =? 168) || (b1 =? 169) || (b1 =? 175)) &&
                          (b2 =? 128) && (b3 =? 226)
                  then Some r3
                  else if (b1 =? 159) && (b2 =? 129) && (b3 =? 226) then Some r3
                  else if (b1 =? 128) && (b2 =? 128) && (b3 =? 227) then Some r3
                  else None
              | "" => None
              end
        | "" => None
        end
  | "" => None
  end.

(** Removal of the leading white-space runes; [fuel] bounds the number
    of runes removed and is the length of the string at the call. *)
Fixpoint trimWith (drop : string -> option string) (fuel : nat) (s : string)
  : string :=
  match fuel with
  | O => s
  | S fuel =>
      match drop s with
      | Some rest => trimWith drop fuel rest
      | None => s
      end
  end.

Definition TrimLeftSpace (s : string) : string :=
  trimWith dropSpaceRune (String.length s) s.

Definition TrimRightSpace (s : string) : string :=
  String.rev (trimWith dropSpaceRuneRev (String.length s) (String.rev s)).

(** [strings.TrimSpace(s)]: [s] without its leading and trailing white
    space. *)
Definition TrimSpace (s : string) : string :=
  TrimRightSpace (TrimLeftSpace s).

(** [strings.HasPrefix(s, prefix)]. *)
Fixpoint HasPrefix (s prefix : string) : bool :=
  match prefix, s with
  | "", _ => true
  | String p prefix, String c s => Ascii.eqb c p && HasPrefix s prefix
  | String _ _, "" => false
  end.

(** [strings.Index(s, substr)]: the index of the first occurrence of
    [substr] in [s]; [None] stands for -1. *)
Fixpoint Index (s substr : string) : option nat :=
  if HasPrefix s substr then Some O
  else
    match s with
    | "" => None
    | String _ r => option_map S (Index r substr)
    end.

(** The loop of [strings.Count] for a separator of two bytes or more:
    the occurrences met when searching again after each one; [fuel] is
    the length of [s] at the call. *)
Fixpoint Count_loop (fuel : nat) (s substr : string) : nat :=
  match fuel with
  | O => O
  | S fuel =>
      match Index s substr with
      | None => O
      | Some i => S (Count_loop fuel (sliceFrom (i + String.length substr) s) substr)
      end
  end.

Fixpoint CountByte (s : string) (c : ascii) : nat :=
  match s with
  | "" => O
  | String c' r => if Ascii.eqb c' c then S (CountByte r c) else CountByte r c
  end.

(** [strings.Count(s, substr)]. *)
Definition Count (s substr : string) : nat :=
  match substr with
  | "" => S (utf8.RuneCountInString s)
  | String c "" => CountByte s c
  | _ => Count_loop (String.length s) s substr
  end.

(** The loop of [strings.explode]: [k] runes are cut off [s] one by one,
    the rest is the last element. *)
Fixpoint explode_loop (k : nat) (s : string) : list string :=
  match k with
  | O => [s]
  | S k =>
      let size := utf8.runeSize s in
      sliceTo size s :: explode_loop k (sliceFrom size s)
  end.

(** [strings.explode(s, -1)]: [s] cut into its runes. *)
Definition explode (s : string) : list string :=
  let n := utf8.RuneCountInString s in
  match n with
  | O => []
  | S k => explode_loop k s
  end.

(** The loop of [strings.genSplit]: at most [k] more cuts. *)
Fixpoint genSplit_loop (k : nat) (s sep : string) : list string :=
  match k with
  | O => [s]
  | S k =>
      match Index s sep with
      | None => [s]
      | Some m =>
          sliceTo m s :: genSplit_loop k (sliceFrom (m + String.length sep) s) sep
      end
  end.

(** [strings.genSplit(s, sep, 0, -1)], which is [strings.Split(s, sep)]
    for a separator of any length. *)
Definition genSplit (s sep : string) : list string :=
  if isEmpty sep then explode s
  else
    let n := Nat.min (Count s sep + 1) (String.length s + 1) in
    genSplit_loop (n - 1) s sep.

(** The loop of [strings.Replace] for a non-empty [old]: [n] more
    occurrences are replaced. *)
Fixpoint Replace_loop (n : nat) (s old new : string) : string :=
  match n with
  | O => s
  | S n =>
      match Index s old with
      | Some j =>
          String.append (sliceTo j s)
            (String.append new
               (Replace_loop n (sliceFrom (j + String.length old) s) old new))
      | None => s
      end
  end.

(** The same loop for the empty [old]: [new] goes after each of the next
    [n] runes. *)
Fixpoint ReplaceEmpty_loop (n : nat) (s new : string) : string :=
  match n with
  | O => s
  | S n =>
      let wid := utf8.runeSize s in
      String.append (sliceTo wid s)
        (String.append new (ReplaceEmpty_loop n (sliceFrom wid s) new))
  end.

(** [strings.ReplaceAll(s, old, new)]. *)
Definition ReplaceAll (s old new : string) : string :=
  if String.eqb old new then s
  else
    match Count s old with
    | O => s
    | S m =>
        if isEmpty old then String.append new (ReplaceEmpty_loop m s new)
        else Replace_loop (S m) s old new
    end.

(** [trimLeftByte(s, c)]. *)
Fixpoint trimLeftByte (s : string) (c : ascii) : string :=
  match s with
  | String c' r => if Ascii.eqb c' c then trimLeftByte r c else s
  | "" => ""
  end.

(** [trimRightByte(s, c)]. *)
Definition trimRightByte (s : string) (c : ascii) : string :=
  String.rev (trimLeftByte (String.rev s) c).

(** [strings.Trim(s, cutset)] for a cutset of one ASCII byte. *)
Definition TrimByte (s : string) (c : ascii) : string :=
  trimLeftByte (trimRightByte s c) c.

End strings.

(** ** os *)

Module os.
Section Environ.
(** The process environment: a variable that is absent is not the same
    as a variable set to the empty string. *)
Variable env : gmap string string.

(** [os.LookupEnv(key)]: the value and whether the variable is present. *)
Definition LookupEnv (key : string) : string * bool :=
  match env !! key with
  | Some v => (v, true)
  | None => ("", false)
  end.

(** [os.Getenv(key)]: the value, empty when the variable is absent. *)
Definition Getenv (key : string) : string := fst (LookupEnv key).
End Environ.

(** [os.ReadFile(name)] on a file system that maps the names of the
    readable files to their contents; [None] stands for the error. *)
Definition ReadFile (files : gmap string string) (name : string) : option string :=
  files !! name.
End os.

(** ** setter.go *)

Import reflect(Value, CanSet, Data, mkValue).

Section Setter.
Variable arch : Arch.

(** The parsing loop of [setSliceOrArray]: [i] is the index of the
    first of [parts], [intValues] the values appended so far. *)
Fixpoint setSliceOrArray_parse (i : nat) (parts : list string)
         (intValues : list Z) : result (list Z) :=
  match parts with
  | [] => Ok intValues
  | part :: rest =>
      let part := strings.TrimSpace part in
      if isEmpty part then
        setSliceOrArray_parse (S i) rest (intValues ++ [0])
      else
        match strconv.ParseInt arch part 64 with
        | Err err => Err (ErrInvalidElem i err)
        | Ok v => setSliceOrArray_parse (S i) rest (intValues ++ [v])
        end
  end.

(** [for i, v := range intValues { x.Index(i).SetInt(v) }]. *)
Fixpoint setSliceOrArray_store (i : nat) (intValues : list Z) (x : Value)
  : Value :=
  match intValues with
  | [] => x
  | v :: rest =>
      setSliceOrArray_store (S i) rest (reflect.IndexSetInt arch x i v)
  end.

(** [setSliceOrArray(field, value)]: the field after the call and the
    error returned, [None] for [nil].  The writes are those of a
    settable field, the only kind of field [setValue] passes; on a field
    that is not settable the Go function panics where it would write. *)
Definition setSliceOrArray (field : Value) (value : string)
  : Value * option error :=
  let elemKind := reflect.ElemKind field in
  if bool_decide (elemKind ≠ reflect.Int) && bool_decide (elemKind ≠ reflect.Int64)
  then (field, Some (ErrUnsupportedElem elemKind))
  else if isEmpty value then
    if bool_decide (reflect.KindOf field = reflect.Slice) then
      (reflect.Set_ field (reflect.MakeSlice elemKind 0), None)
    else
      (foldl (fun f i => reflect.IndexSetInt arch f i 0) field
             (seq 0 (reflect.Len field)), None)
  else
    let parts := strings.Split value "," in
    if bool_decide (reflect.KindOf field = reflect.Array) &&
       bool_decide (length parts ≠ reflect.Len field)
    then (field, Some (ErrArrayLength (length parts) (reflect.Len field)))
    else
      match setSliceOrArray_parse 0 parts [] with
      | Err e => (field, Some e)
      | Ok intValues =>
          if bool_decide (reflect.KindOf field = reflect.Slice) then
            let slice := reflect.MakeSlice elemKind (length intValues) in
            (reflect.Set_ field (setSliceOrArray_store 0 intValues slice), None)
          else
            (setSliceOrArray_store 0 intValues field, None)
      end.

(** [setValue(field, value)]: the field after the call and the error
    returned. *)
Definition setValue (field : Value) (value : string) : Value * option error :=
  if negb (CanSet field) then (field, None)
  else
    match reflect.KindOf field with
    | reflect.String => (reflect.SetString field value, None)
    | reflect.Bool =>
        if isEmpty value then (reflect.SetBool field false, None)
        else
          match strconv.ParseBool value with
          | Err err => (field, Some err)
          | Ok v => (reflect.SetBool field v, None)
          end
    | reflect.Int | reflect.Int64 =>
        if isEmpty value then (reflect.SetInt arch field 0, None)
        else
          match strconv.ParseInt arch value 64 with
          | Err err => (field, Some err)
          | Ok v => (reflect.SetInt arch field v, None)
          end
    | reflect.Slice | reflect.Array => setSliceOrArray field value
    | k => (field, Some (ErrUnsupportedKind k))
    end.
End Setter.

(** ** The accessors and LoadStruct *)

(** A field of a struct: the [env] and [default] keys of its tag, as
    [Tag.Get] returns them (empty when the key is absent), and its
    value. *)
Record Field : Set := mkField {
  TagEnv : string;
  TagDefault : string;
  FieldValue : Value
}.

(** What can be passed as [cfg any]. *)
Inductive any : Set :=
| Nil                              (* the nil interface *)
| StructVal (fields : list Field)  (* a struct, by value *)
| NilPtr                           (* a nil pointer *)
| Ptr (target : any)               (* a pointer to a variable *)
| OtherVal (k : reflect.Kind).     (* a value of any other kind *)

(** [reflect.ValueOf(x).Kind()]. *)
Definition anyKind (x : any) : reflect.Kind :=
  match x with
  | Nil => reflect.Invalid
  | StructVal _ => reflect.Struct
  | NilPtr | Ptr _ => reflect.Pointer
  | OtherVal k => k
  end.

(** [v.Elem()] for a pointer: what it points to, the zero [Value] when
    the pointer is nil. *)
Definition anyElem (x : any) : any :=
  match x with
  | Ptr t => t
  | _ => Nil
  end.

Definition anyFields (x : any) : list Field :=
  match x with
  | StructVal fs => fs
  | _ => []
  end.

Section Env.
Variable arch : Arch.
Variable env : gmap string string.

(** [getEnvValue(envName, defaultValue)]. *)
Definition getEnvValue (envName defaultValue : string) : string :=
  let '(value, exists_) := os.LookupEnv env envName in
  if exists_ then value else defaultValue.

(** The body of the loop of [LoadStruct] for the fields from the
    current one on: the fields after the loop and the error returned. *)
Fixpoint LoadStruct_fields (fields : list Field) : list Field * option error :=
  match fields with
  | [] => ([], None)
  | fieldType :: rest =>
      let envName := TagEnv fieldType in
      if isEmpty envName then
        let '(rest', err) := LoadStruct_fields rest in
        (fieldType :: rest', err)
      else
        let envValue := getEnvValue envName (TagDefault fieldType) in
        let '(field, err) := setValue arch (FieldValue fieldType) envValue in
        let fieldType' := mkField envName (TagDefault fieldType) field in
        match err with
        | Some err => (fieldType' :: rest, Some (ErrEnv envName err))
        | None =>
            let '(rest', err) := LoadStruct_fields rest in
            (fieldType' :: rest', err)
        end
  end.

(** [LoadStruct(cfg)]: the argument after the call (the struct behind
    the pointer is written in place) and the error returned. *)
Definition LoadStruct (cfg : any) : any * option error :=
  if bool_decide (anyKind cfg ≠ reflect.Pointer) ||
     bool_decide (anyKind (anyElem cfg) ≠ reflect.Struct)
  then (cfg, Some ErrCfg)
  else
    let '(fields, err) := LoadStruct_fields (anyFields (anyElem cfg)) in
    (Ptr (StructVal fields), err).

(** [Get(key, defaultValue)]. *)
Definition Get (key defaultValue : string) : string :=
  let value := os.Getenv env key in
  if negb (isEmpty value) then value else defaultValue.

(** [GetBool(key, defaultValue)]. *)
Definition GetBool (key : string) (defaultValue : bool) : bool :=
  let value := Get key "" in
  if isEmpty value then defaultValue
  else
    match strconv.ParseBool value with
    | Err _ => defaultValue
    | Ok parsed => parsed
    end.

(** [GetInt(key, defaultValue)]. *)
Definition GetInt (key : string) (defaultValue : Z) : Z :=
  let value := os.Getenv env key in
  if isEmpty value then defaultValue
  else
    match strconv.Atoi arch value with
    | Err _ => defaultValue
    | Ok parsed => parsed
    end.

(** [GetInt64(key, defaultValue)]. *)
Definition GetInt64 (key : string) (defaultValue : Z) : Z :=
  let value := os.Getenv env key in
  if isEmpty value then defaultValue
  else
    match strconv.ParseInt arch value 64 with
    | Err _ => defaultValue
    | Ok parsed => parsed
    end.

(** The loop of [parseIntSlice]. *)
Fixpoint parseIntSlice_loop (i : nat) (parts : list string) (result_ : list Z)
  : result (list Z) :=
  match parts with
  | [] => Ok result_
  | part :: rest =>
      let part := strings.TrimSpace part in
      if isEmpty part then parseIntSlice_loop (S i) rest (result_ ++ [0])
      else
        match strconv.Atoi arch part with
        | Err err => Err (ErrInvalidElem i err)
        | Ok parsed => parseIntSlice_loop (S i) rest (result_ ++ [parsed])
        end
  end.

(** [parseIntSlice(value)]. *)
Definition parseIntSlice (value : string) : result (list Z) :=
  parseIntSlice_loop 0 (strings.Split value ",") [].

(** The loop of [parseInt64Slice]. *)
Fixpoint parseInt64Slice_loop (i : nat) (parts : list string) (result_ : list Z)
  : result (list Z) :=
  match parts with
  | [] => Ok result_
  | part :: rest =>
      let part := strings.TrimSpace part in
      if isEmpty part then parseInt64Slice_loop (S i) rest (result_ ++ [0])
      else
        match strconv.ParseInt arch part 64 with
        | Err err => Err (ErrInvalidElem64 i err)
        | Ok parsed => parseInt64Slice_loop (S i) rest (result_ ++ [parsed])
        end
  end.

(** [parseInt64Slice(value)]. *)
Definition parseInt64Slice (value : string) : result (list Z) :=
  parseInt64Slice_loop 0 (strings.Split value ",") [].

(** [GetIntSlice(key, defaultValue)]. *)
Definition GetIntSlice (key : string) (defaultValue : list Z) : list Z :=
  let value := os.Getenv env key in
  if isEmpty value then defaultValue
  else
    match parseIntSlice value with
    | Err _ => defaultValue
    | Ok slice => slice
    end.

(** [GetInt64Slice(key, defaultValue)]. *)
Definition GetInt64Slice (key : string) (defaultValue : list Z) : list Z :=
  let value := os.Getenv env key in
  if isEmpty value then defaultValue
  else
    match parseInt64Slice value with
    | Err _ => defaultValue
    | Ok slice => slice
    end.
End Env.

(** [ToList(value, separator)]: the list and the error, which is always
    nil. *)
Definition ToList (value separator : string) : result (list string) :=
  Ok (strings.genSplit value separator).

(** ** The earlier accessor file *)

(** The repository also holds an earlier version of the accessors, with
    the same names; they take the suffix [_v1] here. *)
Section EnvV1.
Variable arch : Arch.
Variable env : gmap string string.

(** [Get(key, defaultValue)]. *)
Definition Get_v1 (key defaultValue : string) : string :=
  let value := os.Getenv env key in
  if negb (isEmpty value) then value else defaultValue.

(** [GetBool(key, defaultValue)]: the default is rendered, handed to
    [Get] as fallback, and parsed back. *)
Definition GetBool_v1 (key : string) (defaultValue : bool) : bool :=
  let value := Get_v1 key (strconv.FormatBool defaultValue) in
  match strconv.ParseBool value with
  | Ok b => b
  | Err _ => defaultValue
  end.

(** [GetInt(key, defaultValue)]. *)
Definition GetInt_v1 (key : string) (defaultValue : Z) : Z :=
  let value := os.Getenv env key in
  if negb (isEmpty value) then
    match strconv.Atoi arch value with
    | Ok i => i
    | Err _ => defaultValue
    end
  else defaultValue.

(** [GetInt64(key, defaultValue)]. *)
Definition GetInt64_v1 (key : string) (defaultValue : Z) : Z :=
  let value := os.Getenv env key in
  if negb (isEmpty value) then
    match strconv.ParseInt arch value 64 with
    | Ok i => i
    | Err _ => defaultValue
    end
  else defaultValue.
End EnvV1.

(** The outcome of the earlier [ToList]: the list, or the error of
    [os.ReadFile] for the file named. *)
Inductive listOrReadError : Set :=
| Lines (result : list string)
| ReadError (name : string).

(** The filtering loop of the earlier [ToList]: the lines that do not
    start with [#], blanks apart, are appended to [result]. *)
Fixpoint ToList_v1_loop (lines : list string) (result : list string)
  : list string :=
  match lines with
  | [] => result
  | line :: rest =>
      if negb (strings.HasPrefix (strings.TrimByte line " ") "#")
      then ToList_v1_loop rest (result ++ [line])
      else ToList_v1_loop rest result
  end.

(** The earlier [ToList(value, separator)]: a value that starts with [@]
    names a file whose lines are returned; any other value is cut at the
    semicolons after [==] is turned into a line feed. *)
Definition ToList_v1 (files : gmap string string) (value separator : string)
  : listOrReadError :=
  if strings.HasPrefix value "@" then
    match os.ReadFile files (sliceFrom 1 value) with
    | None => ReadError (sliceFrom 1 value)
    | Some filedata_ =>
        let filedata :=
          strings.TrimByte (strings.ReplaceAll filedata_ (String "013" "") "")
                           "010" in
        Lines (ToList_v1_loop (strings.genSplit filedata separator) [])
    end
  else
    Lines (strings.genSplit
             (strings.ReplaceAll value "==" (String "010" "")) ";").

(** ** The resolution rule as the specification words it *)

(** "Returns the environment's current value for [name] if it is set AND
    non-empty; otherwise returns [fallback] verbatim." *)
Definition resolve (env : gmap string string) (name fallback : string) : string :=
  match env !! name with
  | Some v => if isEmpty v then fallback else v
  | None => fallback
  end.

(** A key gives an accessor nothing to return: it is unset, set to the
    empty string, or set to a value that [parse] rejects. *)
Definition unusable {A} (parse : string -> result A)
           (env : gmap string string) (key : string) : Prop :=
  env !! key = None \/
  env !! key = Some "" \/
  exists v, env !! key = Some v /\ isOk (parse v) = false.

(** ** Vocabulary of the statements *)

(** The two containers of integers. *)
Inductive container : (reflect.Kind -> list Z -> reflect.data) -> Prop :=
| container_slice : container reflect.DSlice
| container_array : container reflect.DArray.

Definition intElem (ek : reflect.Kind) : Prop :=
  ek = reflect.Int \/ ek = reflect.Int64.

(** What the loop of [LoadStruct] does with one field, taken alone. *)
Definition populated arch env (f : Field) : Field :=
  if isEmpty (TagEnv f) then f
  else mkField (TagEnv f) (TagDefault f)
         (fst (setValue arch (FieldValue f)
                 (getEnvValue env (TagEnv f) (TagDefault f)))).

Definition fieldError arch env (f : Field) : option error :=
  if isEmpty (TagEnv f) then None
  else snd (setValue arch (FieldValue f)
              (getEnvValue env (TagEnv f) (TagDefault f))).

(** The integer a token stands for: the token is trimmed, the empty
    token is 0, any other token is handed to [parse]. *)
Definition tokenValue (parse : string -> result Z) (tok : string) : result Z :=
  let t := strings.TrimSpace tok in
  if isEmpty t then Ok 0 else parse t.

Definition tokenInt (parse : string -> result Z) (tok : string) : Z :=
  match tokenValue parse tok with Ok v => v | Err _ => 0 end.

Definition tokenOk (parse : string -> result Z) (tok : string) : Prop :=
  isOk (tokenValue parse tok) = true.

(** The common shape of the three parsing loops of the package. *)
Fixpoint tokenLoop (parse : string -> result Z) (wrap : nat -> error -> error)
         (i : nat) (parts : list string) (acc : list Z) : result (list Z) :=
  match parts with
  | [] => Ok acc
  | part :: rest =>
      match tokenValue parse part with
      | Ok v => tokenLoop parse wrap (S i) rest (acc ++ [v])
      | Err e => Err (wrap i e)
      end
  end.

(** The outcome of parsing the tokens of a list: the integers of all the
    tokens when every token is fine, and otherwise the error of the first
    token that is not, labelled by [wrap] with the number of tokens
    before it (its 0-based index). *)
Definition listOutcome (parse : string -> result Z) (wrap : nat -> error -> error)
           (tokens : list string) (r : result (list Z)) : Prop :=
  (Forall (tokenOk parse) tokens /\ r = Ok (map (tokenInt parse) tokens)) \/
  (exists pre tok post e,
      tokens = pre ++ tok :: post /\
      Forall (tokenOk parse) pre /\
      tokenValue parse tok = Err e /\
      r = Err (wrap (length pre) e)).

Definition isDigit (c : ascii) : bool := (48 <=? byte c) && (byte c <=? 57).

(** A byte of a rendered integer: a digit or the minus sign. *)
Definition isNumeric (c : ascii) : bool := isDigit c || (byte c =? 45).

Fixpoint allChars (P : ascii -> bool) (s : string) : bool :=
  match s with
  | "" => true
  | String c r => P c && allChars P r
  end.

(** The number a string of digits denotes, read after the number [acc]. *)
Fixpoint digitsVal (acc : Z) (s : string) : option Z :=
  match s with
  | "" => Some acc
  | String c r =>
      if isDigit c then digitsVal (acc * 10 + (byte c - 48)) r else None
  end.

Definition notComma (c : ascii) : bool := negb (Ascii.eqb c ",").

(** The integers of [w] bits. *)
Definition fits (w : Z) (n : Z) : Prop := - 2 ^ (w - 1) <= n < 2 ^ (w - 1).

(** The shape of a variable: what a write through [setValue] must not
    change. *)
Definition sameShape (v v' : Value) : Prop :=
  CanSet v' = CanSet v /\
  reflect.KindOf v' = reflect.KindOf v /\
  reflect.ElemKind v' = reflect.ElemKind v /\
  (reflect.KindOf v = reflect.Array -> reflect.Len v' = reflect.Len v).

(** The kinds [setValue] has a case for. *)
Definition supportedKind (k : reflect.Kind) : bool :=
  bool_decide (k ∈ [reflect.String; reflect.Bool; reflect.Int; reflect.Int64;
                    reflect.Slice; reflect.Array]).

(** What [LoadStruct] may change in a field: nothing in the tags,
    nothing at all without an [env] tag, and never the shape of the
    value. *)
Definition fieldKept (f f' : Field) : Prop :=
  TagEnv f' = TagEnv f /\
  TagDefault f' = TagDefault f /\
  sameShape (FieldValue f) (FieldValue f') /\
  (TagEnv f = "" -> f' = f).

(** Two results that agree on success: the same value, or an error on
    both sides (the errors may differ in their text). *)
Definition sameValue {A} (r1 r2 : result A) : Prop :=
  match r1, r2 with
  | Ok a, Ok b => a = b
  | Err _, Err _ => True
  | _, _ => False
  end.

Definition notCR (c : ascii) : bool := negb (Ascii.eqb c "013").

(** A line the earlier [ToList] keeps: not a comment. *)
Definition keptLine (line : string) : bool :=
  negb (strings.HasPrefix (strings.TrimByte line " ") "#").

Ltac decide_byte_tests :=
  repeat match goal with
         | |- context [Z.leb ?a ?b] => destruct (Z.leb_spec a b); try lia
         | |- context [Z.eqb ?a ?b] => destruct (Z.eqb_spec a b); try lia
         end;
  simpl.

(** * Properties *)

Lemma isEmpty_true s : isEmpty s = true <-> s = "".
Proof. destruct s; simpl; split; congruence. Qed.

Lemma isEmpty_false s : isEmpty s = false <-> s <> "".
Proof. destruct s; simpl; split; congruence. Qed.

(** ** Resolution of the raw string *)

Lemma getEnvValue_lookup env name d :
  getEnvValue env name d = default d (env !! name).
Proof.
  unfold getEnvValue, os.LookupEnv. destruct (env !! name); reflexivity.
Qed.

Lemma Getenv_lookup env key : os.Getenv env key = default "" (env !! key).
Proof.
  unfold os.Getenv, os.LookupEnv. destruct (env !! key); reflexivity.
Qed.

Lemma Get_resolve env key d : Get env key d = resolve env key d.
Proof.
  unfold Get, resolve. rewrite Getenv_lookup.
  destruct (env !! key) as [v|]; simpl; [destruct v|]; reflexivity.
Qed.

(** C1, counterexample: with [K] set to the empty string and a default
    annotation ["d"], the struct-population path hands the parser the
    empty string, not the default the stated rule asks for. *)
Lemma getEnvValue_empty_not_resolve :
  getEnvValue {[ "K" := "" ]} "K" "d" = "" /\
  resolve {[ "K" := "" ]} "K" "d" = "d" /\
  getEnvValue {[ "K" := "" ]} "K" "d" <> resolve {[ "K" := "" ]} "K" "d".
Proof. vm_compute. repeat split; congruence. Qed.

(** C1, amended: the struct-population path ([getEnvValue]) hands the
    parser the environment's value whenever the variable exists, even
    when that value is empty, and the default annotation only when the
    variable is absent; the standalone accessor [Get] returns the value
    when the variable exists and is non-empty and its fallback otherwise.
    The two rules differ exactly on a variable set to the empty string. *)
Theorem resolution_rules env name d :
  getEnvValue env name d =
    match env !! name with Some v => v | None => d end /\
  Get env name d = resolve env name d /\
  getEnvValue env name d =
    if bool_decide (env !! name = Some "") then "" else Get env name d.
Proof.
  rewrite Get_resolve, getEnvValue_lookup. unfold resolve.
  destruct (env !! name) as [v|]; simpl.
  - repeat split. case_bool_decide as H.
    + by inversion H.
    + destruct v; [congruence | reflexivity].
  - repeat split.
Qed.

(** ** The standalone accessors never fail *)

Lemma unusable_Getenv {A} (parse : string -> result A) env key :
  unusable parse env key ->
  os.Getenv env key = "" \/ isOk (parse (os.Getenv env key)) = false.
Proof.
  rewrite Getenv_lookup. intros [H | [H | (v & H & Hv)]]; rewrite H; simpl; auto.
Qed.

Section Fallback.
Variables (arch : Arch) (env : gmap string string) (K : string).

Lemma Get_fallback D : unusable (@Ok string) env K -> Get env K D = D.
Proof.
  intros H; apply unusable_Getenv in H. unfold Get.
  destruct H as [-> | H]; [reflexivity | discriminate].
Qed.

Lemma GetBool_fallback D :
  unusable strconv.ParseBool env K -> GetBool env K D = D.
Proof.
  intros H; apply unusable_Getenv in H. unfold GetBool, Get.
  destruct (os.Getenv env K) as [|c v]; [reflexivity|].
  simpl in *. destruct H as [H | H]; [discriminate|].
  destruct (strconv.ParseBool _); [discriminate | reflexivity].
Qed.

(** The four numeric accessors share one shape: read the variable,
    return the default when it is empty, parse, return the default when
    parsing fails. *)
Lemma parsed_fallback {A} (parse : string -> result A) (D : A) :
  unusable parse env K ->
  (let value := os.Getenv env K in
   if isEmpty value then D
   else match parse value with Err _ => D | Ok parsed => parsed end) = D.
Proof.
  intros H; apply unusable_Getenv in H. cbv zeta.
  destruct (os.Getenv env K) as [|c v]; [reflexivity|].
  simpl isEmpty. cbv iota. destruct H as [H | H]; [discriminate|].
  destruct (parse _); [discriminate | reflexivity].
Qed.
End Fallback.

(** C3: each standalone accessor is a total function that returns a
    plain value, and for a key that is unset, set to the empty string, or
    set to a value its parser rejects, that value is the caller's
    default. *)
Theorem accessors_fall_back arch env (K : string) :
  (forall D, unusable (@Ok string) env K -> Get env K D = D) /\
  (forall D, unusable strconv.ParseBool env K -> GetBool env K D = D) /\
  (forall D, unusable (strconv.Atoi arch) env K -> GetInt arch env K D = D) /\
  (forall D, unusable (fun v => strconv.ParseInt arch v 64) env K ->
             GetInt64 arch env K D = D) /\
  (forall D, unusable (parseIntSlice arch) env K -> GetIntSlice arch env K D = D) /\
  (forall D, unusable (parseInt64Slice arch) env K ->
             GetInt64Slice arch env K D = D).
Proof.
  refine (conj _ (conj _ (conj _ (conj _ (conj _ _))))); intros D H.
  - by apply Get_fallback.
  - by apply GetBool_fallback.
  - by apply (parsed_fallback env K (strconv.Atoi arch)).
  - by apply (parsed_fallback env K (fun v => strconv.ParseInt arch v 64)).
  - by apply (parsed_fallback env K (parseIntSlice arch)).
  - by apply (parsed_fallback env K (parseInt64Slice arch)).
Qed.

Lemma accessors_fall_back_witness :
  Get {[ "K" := "" ]} "K" "d" = "d" /\
  GetBool ∅ "K" true = true /\
  GetInt Arch64 {[ "K" := "not_a_number" ]} "K" 7 = 7 /\
  GetInt64 Arch64 {[ "K" := "9223372036854775808" ]} "K" 7 = 7 /\
  GetIntSlice Arch64 {[ "K" := "8080,not_a_number,8082" ]} "K" [999] = [999] /\
  GetInt64Slice Arch32 {[ "K" := "1,x" ]} "K" [] = [].
Proof.
  refine (conj _ (conj _ (conj _ (conj _ (conj _ _))))).
  - apply (accessors_fall_back Arch64 {[ "K" := "" ]} "K").
    right; left. vm_compute. reflexivity.
  - apply (accessors_fall_back Arch64 ∅ "K").
    left. vm_compute. reflexivity.
  - apply (accessors_fall_back Arch64 {[ "K" := "not_a_number" ]} "K").
    right; right. exists "not_a_number". vm_compute. split; reflexivity.
  - apply (accessors_fall_back Arch64 {[ "K" := "9223372036854775808" ]} "K").
    right; right. exists "9223372036854775808". vm_compute. split; reflexivity.
  - apply (accessors_fall_back Arch64 {[ "K" := "8080,not_a_number,8082" ]} "K").
    right; right. exists "8080,not_a_number,8082". vm_compute. split; reflexivity.
  - apply (accessors_fall_back Arch32 {[ "K" := "1,x" ]} "K").
    right; right. exists "1,x". vm_compute. split; reflexivity.
Defined.

(** ** The precondition of LoadStruct *)

(** C9: when [cfg] is not a pointer, or is a pointer (possibly nil) to
    something that is not a struct, [LoadStruct] returns the error
    "cfg must be pointer to struct" and leaves [cfg] as it was; the
    outcome does not depend on the environment, which is never read. *)
Theorem LoadStruct_precondition arch env (cfg : any) :
  anyKind cfg <> reflect.Pointer \/ anyKind (anyElem cfg) <> reflect.Struct ->
  LoadStruct arch env cfg = (cfg, Some ErrCfg).
Proof.
  intros H. unfold LoadStruct.
  destruct H as [H | H].
  - rewrite bool_decide_eq_true_2 by assumption. reflexivity.
  - rewrite (bool_decide_eq_true_2 _ H). rewrite orb_true_r. reflexivity.
Qed.

Lemma LoadStruct_precondition_witness :
  let field := mkField "TEST_NAME" "" (mkValue false (reflect.DString "")) in
  let env : gmap string string := {[ "TEST_NAME" := "value" ]} in
  LoadStruct Arch64 env (StructVal [field]) = (StructVal [field], Some ErrCfg) /\
  LoadStruct Arch64 env (Ptr (OtherVal reflect.String)) =
    (Ptr (OtherVal reflect.String), Some ErrCfg) /\
  LoadStruct Arch64 env NilPtr = (NilPtr, Some ErrCfg) /\
  LoadStruct Arch64 env Nil = (Nil, Some ErrCfg).
Proof.
  intros field env.
  refine (conj _ (conj _ (conj _ _))).
  - apply (LoadStruct_precondition Arch64 env (StructVal [field])).
    left. simpl. discriminate.
  - apply (LoadStruct_precondition Arch64 env (Ptr (OtherVal reflect.String))).
    right. simpl. discriminate.
  - apply (LoadStruct_precondition Arch64 env NilPtr).
    right. simpl. discriminate.
  - apply (LoadStruct_precondition Arch64 env Nil).
    left. simpl. discriminate.
Defined.

(** ** Fields that cannot be set *)

Lemma setValue_not_settable arch (field : Value) value :
  CanSet field = false -> setValue arch field value = (field, None).
Proof. intros H. unfold setValue. rewrite H. reflexivity. Qed.

Lemma LoadStruct_fields_skip arch env (f : Field) rest :
  CanSet (FieldValue f) = false ->
  LoadStruct_fields arch env (f :: rest) =
    (f :: fst (LoadStruct_fields arch env rest),
     snd (LoadStruct_fields arch env rest)).
Proof.
  intros H. simpl. destruct (isEmpty (TagEnv f)).
  - destruct (LoadStruct_fields arch env rest); reflexivity.
  - rewrite setValue_not_settable by assumption.
    destruct f as [e d v]; simpl.
    destruct (LoadStruct_fields arch env rest); reflexivity.
Qed.

Lemma LoadStruct_fields_app arch env pre post :
  LoadStruct_fields arch env (pre ++ post) =
    match LoadStruct_fields arch env pre with
    | (pre', Some e) => (pre' ++ post, Some e)
    | (pre', None) =>
        (pre' ++ fst (LoadStruct_fields arch env post),
         snd (LoadStruct_fields arch env post))
    end.
Proof.
  induction pre as [|f pre IH]; simpl.
  - destruct (LoadStruct_fields arch env post); reflexivity.
  - destruct (isEmpty (TagEnv f)).
    + rewrite IH. destruct (LoadStruct_fields arch env pre) as [pre' [e|]];
        reflexivity.
    + destruct (setValue arch (FieldValue f) _) as [v [e|]]; [reflexivity|].
      rewrite IH. destruct (LoadStruct_fields arch env pre) as [pre' [e|]];
        reflexivity.
Qed.

Lemma LoadStruct_fields_length arch env fields :
  length (fst (LoadStruct_fields arch env fields)) = length fields.
Proof.
  induction fields as [|f fields IH]; simpl; [reflexivity|].
  destruct (isEmpty (TagEnv f)).
  - destruct (LoadStruct_fields arch env fields); simpl in *; congruence.
  - destruct (setValue arch (FieldValue f) _) as [v [e|]]; simpl; [reflexivity|].
    destruct (LoadStruct_fields arch env fields); simpl in *; congruence.
Qed.

(** C10: on a field that cannot be set, [setValue] returns nil and
    writes nothing, whatever the raw string; in [LoadStruct] such a field
    keeps its value, and the error returned and the other fields are
    those of the same struct without that field. *)
Theorem unsettable_field_untouched arch env (f : Field) :
  CanSet (FieldValue f) = false ->
  (forall value, setValue arch (FieldValue f) value = (FieldValue f, None)) /\
  (forall pre post,
      exists pre' post',
        length pre' = length pre /\
        LoadStruct arch env (Ptr (StructVal (pre ++ post))) =
          (Ptr (StructVal (pre' ++ post')),
           snd (LoadStruct arch env (Ptr (StructVal (pre ++ post))))) /\
        LoadStruct arch env (Ptr (StructVal (pre ++ f :: post))) =
          (Ptr (StructVal (pre' ++ f :: post')),
           snd (LoadStruct arch env (Ptr (StructVal (pre ++ post)))))).
Proof.
  intros H. split.
  - intros value. by apply setValue_not_settable.
  - intros pre post. unfold LoadStruct. simpl.
    rewrite !LoadStruct_fields_app, LoadStruct_fields_skip by assumption.
    pose proof (LoadStruct_fields_length arch env pre) as Hlen.
    destruct (LoadStruct_fields arch env pre) as [pre' [e|]]; simpl in *.
    + exists pre', post. auto.
    + destruct (LoadStruct_fields arch env post) as [post' e]; simpl.
      exists pre', post'. auto.
Qed.

Lemma unsettable_field_untouched_witness :
  let f := mkField "PORT" "" (mkValue false (reflect.DInt 5)) in
  let g := mkField "HOST" "h" (mkValue true (reflect.DString "")) in
  setValue Arch64 (FieldValue f) "not_a_number" = (FieldValue f, None) /\
  LoadStruct Arch64 {[ "PORT" := "not_a_number" ]} (Ptr (StructVal [f; g])) =
    (Ptr (StructVal [f; mkField "HOST" "h" (mkValue true (reflect.DString "h"))]),
     None).
Proof.
  intros f g.
  assert (Hf : CanSet (FieldValue f) = false) by reflexivity.
  pose proof (unsettable_field_untouched Arch64 {[ "PORT" := "not_a_number" ]} f Hf)
    as [H1 H2].
  split.
  - apply H1.
  - destruct (H2 [] [g]) as (pre' & post' & Hlen & Hwithout & Hwith).
    destruct pre'; [|discriminate].
    change ([] ++ f :: [g]) with [f; g] in Hwith. rewrite Hwith.
    vm_compute in Hwithout. injection Hwithout as <-.
    vm_compute. reflexivity.
Defined.

(** ** Writing the elements of a slice or an array *)

Lemma withData_withData (v : Value) d d' :
  reflect.withData (reflect.withData v d) d' = reflect.withData v d'.
Proof. reflexivity. Qed.

Lemma withData_Data (v : Value) : reflect.withData v (Data v) = v.
Proof. by destruct v. Qed.

#[local] Hint Constructors container : core.

Lemma IndexSetInt_container arch mk ek xs (x : Value) i v :
  container mk -> Data x = mk ek xs ->
  reflect.IndexSetInt arch x i v =
    reflect.withData x (mk ek (<[i := reflect.storeInt arch ek v]> xs)).
Proof.
  intros Hmk Hx. unfold reflect.IndexSetInt. rewrite Hx.
  destruct Hmk; reflexivity.
Qed.

Lemma setSliceOrArray_store_spec arch mk ek :
  container mk ->
  forall intValues i (x : Value) xs,
    Data x = mk ek xs ->
    (i + length intValues <= length xs)%nat ->
    setSliceOrArray_store arch i intValues x =
      reflect.withData x
        (mk ek (take i xs ++ map (reflect.storeInt arch ek) intValues
                  ++ drop (i + length intValues) xs)).
Proof.
  intros Hmk. induction intValues as [|v vs IH]; intros i x xs Hx Hlen; simpl.
  - rewrite Nat.add_0_r, take_drop, <- Hx. symmetry. apply withData_Data.
  - simpl in Hlen.
    rewrite (IndexSetInt_container arch mk ek xs) by assumption.
    rewrite (IH (S i) _ (<[i := reflect.storeInt arch ek v]> xs));
      [| reflexivity | rewrite length_insert; lia].
    rewrite withData_withData. do 2 f_equal.
    assert (Hi : (i < length xs)%nat) by lia.
    rewrite (take_S_r _ _ (reflect.storeInt arch ek v))
      by (by apply list_lookup_insert_eq).
    rewrite take_insert_ge by lia.
    rewrite drop_insert_lt by lia.
    rewrite <- app_assoc. simpl.
    by replace (i + S (length vs))%nat with (S (i + length vs)) by lia.
Qed.

Lemma zero_loop_store arch n : forall a (field : Value),
  foldl (fun f i => reflect.IndexSetInt arch f i 0) field (seq a n) =
    setSliceOrArray_store arch a (replicate n 0) field.
Proof.
  induction n as [|n IH]; intros a field; simpl; [reflexivity|].
  apply IH.
Qed.

Lemma storeInt_0 arch ek : reflect.storeInt arch ek 0 = 0.
Proof. destruct ek; try reflexivity. destruct arch; reflexivity. Qed.

Lemma map_storeInt_zeros arch ek n :
  map (reflect.storeInt arch ek) (replicate n 0) = replicate n 0.
Proof.
  induction n as [|n IH]; simpl; [reflexivity|].
  by rewrite storeInt_0, IH.
Qed.

Lemma store_whole arch mk ek intValues (x : Value) xs :
  container mk -> Data x = mk ek xs -> length intValues = length xs ->
  setSliceOrArray_store arch 0 intValues x =
    reflect.withData x (mk ek (map (reflect.storeInt arch ek) intValues)).
Proof.
  intros Hmk Hx Hlen.
  rewrite (setSliceOrArray_store_spec arch mk ek Hmk _ _ _ xs) by (auto; lia).
  simpl. rewrite Hlen, drop_all, app_nil_r. reflexivity.
Qed.

Lemma intElem_check ek :
  intElem ek ->
  bool_decide (ek <> reflect.Int) && bool_decide (ek <> reflect.Int64) = false.
Proof. intros [-> | ->]; reflexivity. Qed.

(** ** Empty raw string on a collection *)

(** C6: for a settable slice or array of integers, an empty raw string
    raises no error; the slice becomes empty and the array of length [N]
    holds [N] zeros.  This is what [setSliceOrArray] does on the settable
    fields [setValue] hands it, and so what [setValue] does. *)
Theorem empty_collection arch (field : Value) ek xs :
  intElem ek ->
  (CanSet field = true -> Data field = reflect.DSlice ek xs ->
     setSliceOrArray arch field "" =
       (reflect.withData field (reflect.DSlice ek []), None)) /\
  (CanSet field = true -> Data field = reflect.DArray ek xs ->
     setSliceOrArray arch field "" =
       (reflect.withData field (reflect.DArray ek (replicate (length xs) 0)),
        None)) /\
  (CanSet field = true ->
   Data field = reflect.DSlice ek xs \/ Data field = reflect.DArray ek xs ->
   setValue arch field "" = setSliceOrArray arch field "").
Proof.
  intros Hek. refine (conj _ (conj _ _)).
  - intros _ Hd. unfold setSliceOrArray, reflect.ElemKind, reflect.KindOf.
    rewrite Hd, intElem_check by assumption. reflexivity.
  - intros _ Hd. unfold setSliceOrArray, reflect.ElemKind, reflect.KindOf, reflect.Len.
    rewrite Hd, intElem_check by assumption. simpl.
    rewrite zero_loop_store.
    rewrite (store_whole arch reflect.DArray ek _ field xs)
      by (auto; apply length_replicate).
    by rewrite map_storeInt_zeros.
  - intros Hset Hd. unfold setValue, reflect.KindOf. rewrite Hset.
    destruct Hd as [Hd | Hd]; rewrite Hd; reflexivity.
Qed.

Lemma empty_collection_witness :
  setValue Arch64 (mkValue true (reflect.DSlice reflect.Int [7; 8])) "" =
    (mkValue true (reflect.DSlice reflect.Int []), None) /\
  setValue Arch32 (mkValue true (reflect.DArray reflect.Int64 [7; 8; 9])) "" =
    (mkValue true (reflect.DArray reflect.Int64 [0; 0; 0]), None).
Proof.
  split.
  - pose proof (empty_collection Arch64
                  (mkValue true (reflect.DSlice reflect.Int [7; 8]))
                  reflect.Int [7; 8] (or_introl eq_refl)) as (H1 & _ & H3).
    rewrite H3 by (simpl; auto). apply H1; reflexivity.
  - pose proof (empty_collection Arch32
                  (mkValue true (reflect.DArray reflect.Int64 [7; 8; 9]))
                  reflect.Int64 [7; 8; 9] (or_intror eq_refl)) as (_ & H2 & H3).
    rewrite H3 by (simpl; auto). apply H2; reflexivity.
Defined.

(** ** Booleans *)

Lemma tokens_disjoint s : s ∈ strconv.trueTokens -> s ∈ strconv.falseTokens -> False.
Proof.
  unfold strconv.trueTokens, strconv.falseTokens. intros Ht Hf.
  repeat (apply elem_of_cons in Ht as [-> | Ht]);
    try (by apply elem_of_nil in Ht);
    repeat (apply elem_of_cons in Hf as [Hf | Hf]); try discriminate;
    by apply elem_of_nil in Hf.
Qed.

Lemma ParseBool_Ok s b :
  strconv.ParseBool s = Ok b <->
  (b = true /\ s ∈ ["1"; "t"; "T"; "true"; "TRUE"; "True"]) \/
  (b = false /\ s ∈ ["0"; "f"; "F"; "false"; "FALSE"; "False"]).
Proof.
  unfold strconv.ParseBool.
  fold strconv.trueTokens strconv.falseTokens.
  case_bool_decide as Ht; [|case_bool_decide as Hf]; split.
  - intros [= <-]. auto.
  - intros [[-> _] | [-> Hf]]; [reflexivity|].
    destruct (tokens_disjoint s Ht Hf).
  - intros [= <-]. auto.
  - intros [[-> Ht'] | [-> _]]; [contradiction | reflexivity].
  - discriminate.
  - intros [[_ Ht'] | [_ Hf']]; contradiction.
Qed.

Lemma ParseBool_Err s :
  isOk (strconv.ParseBool s) = false ->
  strconv.ParseBool s = Err (NumError "ParseBool" s ErrSyntax).
Proof.
  unfold strconv.ParseBool. repeat case_bool_decide; simpl; congruence.
Qed.

Lemma Getenv_Some env key v : env !! key = Some v -> os.Getenv env key = v.
Proof. intros H. rewrite Getenv_lookup, H. reflexivity. Qed.

(** C4: [strconv.ParseBool] accepts exactly the twelve tokens
    [1 t T true TRUE True] (true) and [0 f F false FALSE False] (false),
    the case variants being the upper-case and the capitalised spelling.
    On the struct-field path a settable boolean field is set to false by
    an empty raw string, to the parsed value by an accepted token, and any
    other non-empty raw string is a parse failure that leaves the field
    as it was.  [GetBool] returns the caller's default for an unset,
    empty or rejected value and the parsed value otherwise. *)
Theorem boolean_parsing arch env :
  (forall s b,
      strconv.ParseBool s = Ok b <->
      (b = true /\ s ∈ ["1"; "t"; "T"; "true"; "TRUE"; "True"]) \/
      (b = false /\ s ∈ ["0"; "f"; "F"; "false"; "FALSE"; "False"])) /\
  (forall (field : Value) b0,
      CanSet field = true -> Data field = reflect.DBool b0 ->
      setValue arch field "" = (reflect.SetBool field false, None) /\
      (forall value b,
          strconv.ParseBool value = Ok b ->
          setValue arch field value = (reflect.SetBool field b, None)) /\
      (forall value,
          value <> "" -> isOk (strconv.ParseBool value) = false ->
          setValue arch field value =
            (field, Some (NumError "ParseBool" value ErrSyntax)))) /\
  (forall K D, unusable strconv.ParseBool env K -> GetBool env K D = D) /\
  (forall K v b D,
      env !! K = Some v -> strconv.ParseBool v = Ok b -> GetBool env K D = b).
Proof.
  refine (conj ParseBool_Ok (conj _ (conj _ _))).
  - intros field b0 Hset Hd.
    unfold setValue, reflect.KindOf. rewrite Hset, Hd. simpl.
    refine (conj eq_refl (conj _ _)).
    + intros value b Hb. rewrite Hb.
      destruct value; [|reflexivity]. discriminate.
    + intros value Hne Hbad. apply isEmpty_false in Hne. rewrite Hne.
      by rewrite (ParseBool_Err _ Hbad).
  - intros K D. apply GetBool_fallback.
  - intros K v b D Hv Hb. unfold GetBool, Get.
    rewrite (Getenv_Some _ _ _ Hv).
    destruct v; [discriminate|]. simpl. by rewrite Hb.
Qed.

Lemma boolean_parsing_witness :
  let field := mkValue true (reflect.DBool true) in
  setValue Arch64 field "" = (mkValue true (reflect.DBool false), None) /\
  setValue Arch64 field "TRUE" = (mkValue true (reflect.DBool true), None) /\
  setValue Arch64 field "tRUE" = (field, Some (NumError "ParseBool" "tRUE" ErrSyntax)) /\
  GetBool {[ "DEBUG" := "yes" ]} "DEBUG" true = true /\
  GetBool {[ "DEBUG" := "0" ]} "DEBUG" true = false.
Proof.
  intros field.
  pose proof (boolean_parsing Arch64 {[ "DEBUG" := "yes" ]}) as (_ & H2 & H3 & _).
  pose proof (boolean_parsing Arch64 {[ "DEBUG" := "0" ]}) as (_ & _ & _ & H4).
  destruct (H2 field true eq_refl eq_refl) as (Ha & Hb & Hc).
  refine (conj Ha (conj _ (conj _ (conj _ _)))).
  - apply (Hb "TRUE" true). reflexivity.
  - apply (Hc "tRUE"); [discriminate | reflexivity].
  - apply H3. right; right. exists "yes". vm_compute. split; reflexivity.
  - apply (H4 "DEBUG" "0" false true); vm_compute; reflexivity.
Defined.

(** ** Fail-fast population *)

Lemma setSliceOrArray_error_unchanged arch (field : Value) value field' e :
  setSliceOrArray arch field value = (field', Some e) -> field' = field.
Proof.
  unfold setSliceOrArray. repeat case_match; congruence.
Qed.

Lemma setValue_error_unchanged arch (field : Value) value field' e :
  setValue arch field value = (field', Some e) -> field' = field.
Proof.
  unfold setValue.
  repeat case_match; try congruence;
    intros Hs; by apply setSliceOrArray_error_unchanged in Hs.
Qed.

Lemma LoadStruct_fields_ok arch env fields :
  Forall (fun g => fieldError arch env g = None) fields ->
  LoadStruct_fields arch env fields = (map (populated arch env) fields, None).
Proof.
  induction 1 as [|f fields Hf _ IH]; simpl; [reflexivity|].
  unfold fieldError, populated in *.
  destruct (isEmpty (TagEnv f)).
  - by rewrite IH.
  - destruct (setValue arch (FieldValue f) _) as [v o]; simpl in *; subst o.
    by rewrite IH.
Qed.

Lemma LoadStruct_fields_fail arch env (f : Field) rest e :
  fieldError arch env f = Some e ->
  LoadStruct_fields arch env (f :: rest) = (f :: rest, Some (ErrEnv (TagEnv f) e)).
Proof.
  unfold fieldError. simpl. destruct (isEmpty (TagEnv f)); [discriminate|].
  destruct (setValue arch (FieldValue f) _) as [v o] eqn:Hset; simpl.
  intros ->. apply setValue_error_unchanged in Hset as ->.
  by destruct f.
Qed.

(** C2: when the fields before [f] are populated without error and the
    parse of the raw string resolved for the annotated field [f] fails
    with [e], [LoadStruct] returns the error "env <name>: <e>", which
    names the variable of [f] and wraps [e]; the fields before [f] hold
    the values just written, [f] and the fields after it are as they were
    before the call. *)
Theorem LoadStruct_fails_fast arch env pre (f : Field) post e :
  Forall (fun g => fieldError arch env g = None) pre ->
  TagEnv f <> "" ->
  snd (setValue arch (FieldValue f)
         (getEnvValue env (TagEnv f) (TagDefault f))) = Some e ->
  LoadStruct arch env (Ptr (StructVal (pre ++ f :: post))) =
    (Ptr (StructVal (map (populated arch env) pre ++ f :: post)),
     Some (ErrEnv (TagEnv f) e)) /\
  Unwrap (ErrEnv (TagEnv f) e) = Some e.
Proof.
  intros Hpre Hname Hfail. split; [|reflexivity].
  unfold LoadStruct. simpl.
  rewrite LoadStruct_fields_app, (LoadStruct_fields_ok _ _ _ Hpre).
  rewrite (LoadStruct_fields_fail arch env f post e); [reflexivity|].
  unfold fieldError. apply isEmpty_false in Hname. by rewrite Hname.
Qed.

Lemma LoadStruct_fails_fast_witness :
  let host := mkField "HOST" "localhost" (mkValue true (reflect.DString "")) in
  let skip := mkField "" "" (mkValue true (reflect.DString "s")) in
  let port := mkField "PORT" "8080" (mkValue true (reflect.DInt 1)) in
  let debug := mkField "DEBUG" "true" (mkValue true (reflect.DBool false)) in
  LoadStruct Arch64 {[ "PORT" := "not_a_number" ]}
             (Ptr (StructVal [host; skip; port; debug])) =
    (Ptr (StructVal
            [mkField "HOST" "localhost" (mkValue true (reflect.DString "localhost"));
             skip; port; debug]),
     Some (ErrEnv "PORT" (NumError "ParseInt" "not_a_number" ErrSyntax))).
Proof.
  intros host skip port debug.
  refine (proj1 (LoadStruct_fails_fast Arch64 {[ "PORT" := "not_a_number" ]}
                   [host; skip] port [debug]
                   (NumError "ParseInt" "not_a_number" ErrSyntax) _ _ _)).
  - repeat constructor.
  - discriminate.
  - vm_compute. reflexivity.
Defined.

(** ** Parsing a comma-separated list *)

Lemma setSliceOrArray_parse_tokenLoop arch parts : forall i acc,
  setSliceOrArray_parse arch i parts acc =
    tokenLoop (fun t => strconv.ParseInt arch t 64) ErrInvalidElem i parts acc.
Proof.
  induction parts as [|p parts IH]; intros i acc; simpl; [reflexivity|].
  unfold tokenValue. destruct (isEmpty _); [apply IH|].
  destruct (strconv.ParseInt _ _ _); [apply IH | reflexivity].
Qed.

Lemma parseIntSlice_loop_tokenLoop arch parts : forall i acc,
  parseIntSlice_loop arch i parts acc =
    tokenLoop (strconv.Atoi arch) ErrInvalidElem i parts acc.
Proof.
  induction parts as [|p parts IH]; intros i acc; simpl; [reflexivity|].
  unfold tokenValue. destruct (isEmpty _); [apply IH|].
  destruct (strconv.Atoi _ _); [apply IH | reflexivity].
Qed.

Lemma parseInt64Slice_loop_tokenLoop arch parts : forall i acc,
  parseInt64Slice_loop arch i parts acc =
    tokenLoop (fun t => strconv.ParseInt arch t 64) ErrInvalidElem64 i parts acc.
Proof.
  induction parts as [|p parts IH]; intros i acc; simpl; [reflexivity|].
  unfold tokenValue. destruct (isEmpty _); [apply IH|].
  destruct (strconv.ParseInt _ _ _); [apply IH | reflexivity].
Qed.

Section TokenLoop.
Variable parse : string -> result Z.
Variable wrap : nat -> error -> error.

Lemma tokenLoop_ok parts : forall i acc,
  Forall (tokenOk parse) parts ->
  tokenLoop parse wrap i parts acc = Ok (acc ++ map (tokenInt parse) parts).
Proof.
  induction parts as [|p parts IH]; intros i acc Hall; simpl.
  - by rewrite app_nil_r.
  - inversion Hall as [|? ? Hp Hrest]; subst.
    unfold tokenOk, tokenInt in *.
    destruct (tokenValue parse p) as [v|e]; [|discriminate].
    rewrite IH by assumption. by rewrite <- app_assoc.
Qed.

Lemma tokenLoop_err pre tok post e : forall i acc,
  Forall (tokenOk parse) pre ->
  tokenValue parse tok = Err e ->
  tokenLoop parse wrap i (pre ++ tok :: post) acc =
    Err (wrap (i + length pre)%nat e).
Proof.
  induction pre as [|p pre IH]; intros i acc Hall Htok; simpl.
  - rewrite Htok. by rewrite Nat.add_0_r.
  - inversion Hall as [|? ? Hp Hrest]; subst.
    unfold tokenOk in Hp.
    destruct (tokenValue parse p) as [v|e']; [|discriminate].
    rewrite IH by assumption. do 2 f_equal. lia.
Qed.

Lemma tokenLoop_length parts : forall i acc vs,
  tokenLoop parse wrap i parts acc = Ok vs ->
  length vs = (length acc + length parts)%nat.
Proof.
  induction parts as [|p parts IH]; intros i acc vs; simpl.
  - intros [= <-]. lia.
  - destruct (tokenValue parse p) as [v|e]; [|discriminate].
    intros H. apply IH in H. rewrite length_app in H. simpl in H. lia.
Qed.
End TokenLoop.

Lemma setSliceOrArray_slice arch (field : Value) ek xs value :
  intElem ek -> Data field = reflect.DSlice ek xs -> value <> "" ->
  setSliceOrArray arch field value =
    match setSliceOrArray_parse arch 0 (strings.Split value ",") [] with
    | Ok vs =>
        (reflect.withData field
           (reflect.DSlice ek (map (reflect.storeInt arch ek) vs)), None)
    | Err e => (field, Some e)
    end.
Proof.
  intros Hek Hd Hne. apply isEmpty_false in Hne.
  unfold setSliceOrArray, reflect.ElemKind, reflect.KindOf.
  rewrite Hd, intElem_check, Hne by assumption. simpl.
  destruct (setSliceOrArray_parse arch 0 _ []) as [vs|e]; [|reflexivity].
  rewrite (store_whole arch reflect.DSlice ek vs _ (replicate (length vs) 0));
    [reflexivity | constructor | reflexivity | by rewrite length_replicate].
Qed.

Lemma setSliceOrArray_array arch (field : Value) ek xs value :
  intElem ek -> Data field = reflect.DArray ek xs -> value <> "" ->
  setSliceOrArray arch field value =
    if bool_decide (length (strings.Split value ",") = length xs) then
      match setSliceOrArray_parse arch 0 (strings.Split value ",") [] with
      | Ok vs =>
          (reflect.withData field
             (reflect.DArray ek (map (reflect.storeInt arch ek) vs)), None)
      | Err e => (field, Some e)
      end
    else
      (field, Some (ErrArrayLength (length (strings.Split value ",")) (length xs))).
Proof.
  intros Hek Hd Hne. apply isEmpty_false in Hne.
  unfold setSliceOrArray, reflect.ElemKind, reflect.KindOf, reflect.Len.
  rewrite Hd, intElem_check, Hne by assumption. simpl.
  destruct (decide (length (strings.Split value ",") = length xs)) as [Hlen|Hlen].
  - rewrite (bool_decide_eq_true_2 _ Hlen).
    rewrite bool_decide_eq_false_2 by auto. simpl.
    destruct (setSliceOrArray_parse arch 0 _ []) as [vs|e] eqn:Hp; [|reflexivity].
    rewrite setSliceOrArray_parse_tokenLoop in Hp.
    apply tokenLoop_length in Hp. simpl in Hp.
    by rewrite (store_whole arch reflect.DArray ek vs field xs)
      by (auto using container; congruence).
  - rewrite (bool_decide_eq_false_2 _ Hlen).
    rewrite bool_decide_eq_true_2 by auto. reflexivity.
Qed.

Lemma first_bad_token parse (tokens : list string) :
  Forall (tokenOk parse) tokens \/
  exists pre tok post e,
    tokens = pre ++ tok :: post /\
    Forall (tokenOk parse) pre /\
    tokenValue parse tok = Err e.
Proof.
  induction tokens as [|t tokens IH].
  - left. constructor.
  - destruct (tokenValue parse t) as [v|e] eqn:Ht.
    + assert (Hok : tokenOk parse t) by (unfold tokenOk; by rewrite Ht).
      destruct IH as [IH | (pre & tok & post & e & -> & Hpre & Htok)].
      * left. by constructor.
      * right. exists (t :: pre), tok, post, e. repeat split; auto.
    + right. exists [], t, tokens, e. repeat split; auto.
Qed.

Lemma tokenLoop_outcome parse wrap tokens :
  listOutcome parse wrap tokens (tokenLoop parse wrap 0 tokens []).
Proof.
  destruct (first_bad_token parse tokens)
    as [Hall | (pre & tok & post & e & -> & Hpre & Htok)].
  - left. split; [assumption|]. by rewrite tokenLoop_ok.
  - right. exists pre, tok, post, e. repeat split; auto.
    by rewrite (tokenLoop_err parse wrap pre tok post e).
Qed.

Lemma first_bad_unique parse (pre1 pre2 : list string) tok1 tok2 post1 post2 e1 e2 :
  pre1 ++ tok1 :: post1 = pre2 ++ tok2 :: post2 ->
  Forall (tokenOk parse) pre1 -> Forall (tokenOk parse) pre2 ->
  tokenValue parse tok1 = Err e1 -> tokenValue parse tok2 = Err e2 ->
  pre1 = pre2 /\ e1 = e2.
Proof.
  intros Heq H1 H2 Ht1 Ht2. revert pre2 Heq H2.
  induction H1 as [|p pre1 Hp _ IH]; intros pre2 Heq H2.
  - destruct H2 as [|q pre2 Hq _]; simpl in Heq.
    + injection Heq as -> _. split; congruence.
    + injection Heq as <- _. unfold tokenOk in Hq. by rewrite Ht1 in Hq.
  - destruct H2 as [|q pre2 Hq H2]; simpl in Heq.
    + injection Heq as -> _. unfold tokenOk in Hp. by rewrite Ht2 in Hp.
    + injection Heq as <- Heq. destruct (IH _ Heq H2) as [-> ->]. done.
Qed.

(** The outcome is a function of the tokens. *)
Lemma listOutcome_functional parse wrap tokens r1 r2 :
  listOutcome parse wrap tokens r1 -> listOutcome parse wrap tokens r2 -> r1 = r2.
Proof.
  intros [[Hall1 ->] | (pre1 & tok1 & post1 & e1 & Heq1 & Hpre1 & Htok1 & ->)]
         [[Hall2 ->] | (pre2 & tok2 & post2 & e2 & Heq2 & Hpre2 & Htok2 & ->)].
  - reflexivity.
  - subst tokens. apply Forall_app in Hall1 as [_ Hbad].
    inversion Hbad as [|? ? Hok _]; subst. unfold tokenOk in Hok.
    by rewrite Htok2 in Hok.
  - subst tokens. apply Forall_app in Hall2 as [_ Hbad].
    inversion Hbad as [|? ? Hok _]; subst. unfold tokenOk in Hok.
    by rewrite Htok1 in Hok.
  - rewrite Heq1 in Heq2.
    by destruct (first_bad_unique parse _ _ _ _ _ _ _ _ Heq2 Hpre1 Hpre2 Htok1 Htok2)
      as [-> ->].
Qed.

(** C7: the list parsers split the raw string on commas, trim each
    token, read an empty trimmed token as 0, and stop at the first token
    that does not parse with an error that carries its 0-based index.
    This holds for [parseIntSlice] and [parseInt64Slice] on every string,
    and for [setSliceOrArray] on a settable field and a non-empty raw
    string, for a slice and, when the token count is the array's length,
    for an array. *)
Theorem comma_list_parsing arch (value : string) :
  let tokens := strings.Split value "," in
  let parse64 := fun t => strconv.ParseInt arch t 64 in
  listOutcome (strconv.Atoi arch) ErrInvalidElem tokens (parseIntSlice arch value) /\
  listOutcome parse64 ErrInvalidElem64 tokens (parseInt64Slice arch value) /\
  (forall (field : Value) ek xs mk,
      CanSet field = true ->
      intElem ek -> value <> "" ->
      (mk = reflect.DSlice \/ mk = reflect.DArray /\ length tokens = length xs) ->
      Data field = mk ek xs ->
      exists r,
        listOutcome parse64 ErrInvalidElem tokens r /\
        setSliceOrArray arch field value =
          match r with
          | Ok vs =>
              (reflect.withData field
                 (mk ek (map (reflect.storeInt arch ek) vs)), None)
          | Err e => (field, Some e)
          end) /\
  parseIntSlice arch "1,,3" = Ok [1; 0; 3] /\
  parseIntSlice arch " 1 , 2 , 3 " = Ok [1; 2; 3].
Proof.
  intros tokens parse64.
  refine (conj _ (conj _ (conj _ (conj _ _)))).
  - unfold parseIntSlice. rewrite parseIntSlice_loop_tokenLoop.
    apply tokenLoop_outcome.
  - unfold parseInt64Slice. rewrite parseInt64Slice_loop_tokenLoop.
    apply tokenLoop_outcome.
  - intros field ek xs mk _ Hek Hne Hmk Hd.
    exists (setSliceOrArray_parse arch 0 tokens []). split.
    + rewrite setSliceOrArray_parse_tokenLoop. apply tokenLoop_outcome.
    + destruct Hmk as [-> | [-> Hlen]].
      * by apply (setSliceOrArray_slice arch field ek xs).
      * rewrite (setSliceOrArray_array arch field ek xs) by assumption.
        fold tokens. by rewrite (bool_decide_eq_true_2 _ Hlen).
  - destruct arch; vm_compute; reflexivity.
  - destruct arch; vm_compute; reflexivity.
Qed.

Lemma comma_list_parsing_witness :
  exists r,
    listOutcome (fun t => strconv.ParseInt Arch64 t 64) ErrInvalidElem
                (strings.Split "8080,not_a_number,8082" ",") r /\
    setSliceOrArray Arch64 (mkValue true (reflect.DSlice reflect.Int []))
                    "8080,not_a_number,8082" =
      match r with
      | Ok vs =>
          (reflect.withData (mkValue true (reflect.DSlice reflect.Int []))
             (reflect.DSlice reflect.Int
                (map (reflect.storeInt Arch64 reflect.Int) vs)), None)
      | Err e => (mkValue true (reflect.DSlice reflect.Int []), Some e)
      end.
Proof.
  apply (proj1 (proj2 (proj2
           (comma_list_parsing Arch64 "8080,not_a_number,8082")))
           (mkValue true (reflect.DSlice reflect.Int [])) reflect.Int []
           reflect.DSlice).
  - reflexivity.
  - left. reflexivity.
  - discriminate.
  - left. reflexivity.
  - reflexivity.
Defined.

(** ** The length check on arrays *)

(** C5: for an array of [N] integers and a non-empty raw string, a
    token count other than [N] is an error that reports the count found
    and [N] and leaves the array as it was; the call succeeds only when
    the count is [N]; and with the count [N] and tokens that all parse,
    a settable array takes the parsed values. *)
Theorem array_length_check arch (field : Value) ek xs (value : string) :
  intElem ek -> Data field = reflect.DArray ek xs -> value <> "" ->
  let tokens := strings.Split value "," in
  let parse64 := fun t => strconv.ParseInt arch t 64 in
  (length tokens <> length xs ->
   setSliceOrArray arch field value =
     (field, Some (ErrArrayLength (length tokens) (length xs)))) /\
  (snd (setSliceOrArray arch field value) = None ->
   length tokens = length xs) /\
  (CanSet field = true ->
   length tokens = length xs -> Forall (tokenOk parse64) tokens ->
   setSliceOrArray arch field value =
     (reflect.withData field
        (reflect.DArray ek
           (map (reflect.storeInt arch ek) (map (tokenInt parse64) tokens))),
      None)).
Proof.
  intros Hek Hd Hne tokens parse64.
  rewrite (setSliceOrArray_array arch field ek xs) by assumption.
  fold tokens. refine (conj _ (conj _ _)).
  - intros Hlen. by rewrite (bool_decide_eq_false_2 _ Hlen).
  - case_bool_decide; [done | discriminate].
  - intros _ Hlen Hall. rewrite (bool_decide_eq_true_2 _ Hlen).
    rewrite setSliceOrArray_parse_tokenLoop.
    pose proof (tokenLoop_ok parse64 ErrInvalidElem tokens 0 [] Hall) as Hloop.
    unfold parse64, tokens in *. by rewrite Hloop.
Qed.

Lemma array_length_check_witness :
  let field := mkValue true (reflect.DArray reflect.Int [0; 0; 0]) in
  setSliceOrArray Arch64 field "1,2" = (field, Some (ErrArrayLength 2 3)) /\
  setSliceOrArray Arch64 field "1,2,3" =
    (mkValue true (reflect.DArray reflect.Int [1; 2; 3]), None).
Proof.
  intros field.
  assert (Hek : intElem reflect.Int) by (by left).
  split.
  - refine (proj1 (array_length_check Arch64 field reflect.Int [0; 0; 0] "1,2"
                     Hek eq_refl _) _).
    + discriminate.
    + vm_compute. lia.
  - refine (proj2 (proj2 (array_length_check Arch64 field reflect.Int [0; 0; 0]
                            "1,2,3" Hek eq_refl _)) _ _ _).
    + discriminate.
    + reflexivity.
    + reflexivity.
    + repeat constructor.
Defined.

(** ** Decimal digits *)

Lemma append_cons c (s t : string) : String c s +:+ t = String c (s +:+ t).
Proof. reflexivity. Qed.

Lemma append_nil_r (s : string) : s +:+ "" = s.
Proof.
  induction s as [|c s IH]; [reflexivity|]. by rewrite append_cons, IH.
Qed.

Lemma allChars_app P (s t : string) :
  allChars P (s +:+ t) = allChars P s && allChars P t.
Proof.
  induction s as [|c s IH]; [reflexivity|].
  rewrite append_cons. simpl. by rewrite IH, andb_assoc.
Qed.

Lemma allChars_impl (P Q : ascii -> bool) s :
  (forall c, P c = true -> Q c = true) ->
  allChars P s = true -> allChars Q s = true.
Proof.
  intros HPQ. induction s as [|c s IH]; simpl; [done|].
  intros [Hc Hs]%andb_true_iff. by rewrite (HPQ _ Hc), IH.
Qed.

Lemma byte_digitChar d : 0 <= d <= 9 -> byte (strconv.digitChar d) = 48 + d.
Proof.
  intros Hd. unfold byte, strconv.digitChar.
  rewrite N_ascii_embedding by lia. lia.
Qed.

Lemma isDigit_digitChar d : 0 <= d <= 9 -> isDigit (strconv.digitChar d) = true.
Proof.
  intros Hd. unfold isDigit. rewrite byte_digitChar by assumption.
  apply andb_true_iff. split; apply Z.leb_le; lia.
Qed.

Lemma digitsVal_app (s t : string) : forall acc,
  digitsVal acc (s +:+ t) =
    match digitsVal acc s with
    | Some v => digitsVal v t
    | None => None
    end.
Proof.
  induction s as [|c s IH]; intros acc; [reflexivity|].
  rewrite append_cons. simpl. destruct (isDigit c); [apply IH | reflexivity].
Qed.

Lemma digitsVal_ge (s : string) : forall acc v,
  0 <= acc -> digitsVal acc s = Some v -> acc <= v.
Proof.
  induction s as [|c s IH]; intros acc v Hacc; simpl.
  - intros [= <-]. lia.
  - destruct (isDigit c) eqn:Hc; [|discriminate].
    unfold isDigit in Hc. apply andb_true_iff in Hc as [H1%Z.leb_le H2%Z.leb_le].
    intros H. apply IH in H; lia.
Qed.

Lemma formatBits_digits fuel : forall n,
  0 <= n < 2 ^ Z.of_nat (S fuel) ->
  allChars isDigit (strconv.formatBits (S fuel) n) = true /\
  strconv.formatBits (S fuel) n <> "" /\
  digitsVal 0 (strconv.formatBits (S fuel) n) = Some n.
Proof.
  induction fuel as [|fuel IH]; intros n Hn.
  - assert (Hlt : (n <? 10) = true) by (apply Z.ltb_lt; simpl in Hn; lia).
    simpl. rewrite Hlt. simpl.
    rewrite isDigit_digitChar, byte_digitChar by lia.
    repeat split; [discriminate | f_equal; lia].
  - change (strconv.formatBits (S (S fuel)) n) with
      (if n <? 10 then String (strconv.digitChar n) ""
       else strconv.formatBits (S fuel) (n / 10)
              +:+ String (strconv.digitChar (n mod 10)) "").
    destruct (Z.ltb_spec n 10) as [Hlt | Hge].
    + simpl. rewrite isDigit_digitChar, byte_digitChar by lia.
      repeat split; [discriminate | f_equal; lia].
    + assert (Hdiv : 0 <= n / 10 < 2 ^ Z.of_nat (S fuel)).
      { split; [apply Z.div_pos; lia|].
        apply Z.div_lt_upper_bound; [lia|].
        rewrite (Nat2Z.inj_succ (S fuel)), Z.pow_succ_r in Hn by lia. lia. }
      destruct (IH _ Hdiv) as (Hall & Hne & Hval).
      pose proof (Z.mod_pos_bound n 10 ltac:(lia)) as Hmod.
      refine (conj _ (conj _ _)).
      * rewrite allChars_app, Hall. simpl.
        by rewrite isDigit_digitChar by lia.
      * destruct (strconv.formatBits (S fuel) (n / 10)); [done | discriminate].
      * rewrite digitsVal_app, Hval. simpl.
        rewrite isDigit_digitChar, byte_digitChar by lia.
        f_equal. pose proof (Z.div_mod n 10 ltac:(lia)). lia.
Qed.

Lemma FormatUint_digits n :
  0 <= n ->
  allChars isDigit (strconv.FormatUint n) = true /\
  strconv.FormatUint n <> "" /\
  digitsVal 0 (strconv.FormatUint n) = Some n.
Proof.
  intros Hn. apply formatBits_digits. split; [assumption|].
  rewrite Nat2Z.inj_succ, Z2Nat.id by apply Z.log2_nonneg.
  destruct (Z.eq_dec n 0) as [-> | Hne]; [reflexivity|].
  apply Z.log2_spec. lia.
Qed.

(** ** Parsing a rendered integer *)

Lemma ParseUint_loop_digits maxVal (s : string) : forall n v,
  0 <= n -> maxVal <= strconv.maxUint64 ->
  allChars isDigit s = true ->
  digitsVal n s = Some v -> v <= maxVal ->
  strconv.ParseUint_loop maxVal n s = (v, None).
Proof.
  unfold strconv.maxUint64.
  induction s as [|c s IH]; intros n v Hn Hmax Hall Hval Hv; simpl in *.
  - by injection Hval as <-.
  - apply andb_true_iff in Hall as [Hc Hall]. rewrite Hc in Hval.
    pose proof Hc as Hc'. unfold isDigit in Hc'. rewrite Hc'.
    apply andb_true_iff in Hc' as [H1%Z.leb_le H2%Z.leb_le].
    assert (Hge : n * 10 + (byte c - 48) <= v)
      by (apply (digitsVal_ge s); [lia | assumption]).
    rewrite (proj2 (Z.leb_gt 10 (byte c - 48))) by lia.
    change (strconv.maxUint64 / 10 + 1) with 1844674407370955162.
    rewrite (proj2 (Z.leb_gt 1844674407370955162 n)) by lia.
    rewrite Z.mod_small by lia.
    rewrite (proj2 (Z.ltb_ge (n * 10 + (byte c - 48)) (n * 10))) by lia.
    rewrite (proj2 (Z.ltb_ge maxVal (n * 10 + (byte c - 48)))) by lia.
    simpl. apply IH; auto; lia.
Qed.

Lemma digit_not_sign c :
  isDigit c = true -> Ascii.eqb c "+" = false /\ Ascii.eqb c "-" = false.
Proof.
  unfold isDigit. intros [H1%Z.leb_le H2%Z.leb_le]%andb_true_iff.
  split; apply Ascii.eqb_neq; intros ->; vm_compute in H1; by apply H1.
Qed.

Lemma ParseUint_digits arch (s : string) bitSize b v :
  b = (if bitSize =? 0 then IntSize arch else bitSize) ->
  0 <= b <= 64 ->
  s <> "" -> allChars isDigit s = true ->
  digitsVal 0 s = Some v -> v <= 2 ^ b - 1 ->
  strconv.ParseUint arch s bitSize = (v, None).
Proof.
  intros -> Hb Hne Hall Hval Hv. unfold strconv.ParseUint.
  apply isEmpty_false in Hne. rewrite Hne.
  apply ParseUint_loop_digits; auto; [lia|].
  unfold strconv.maxUint64.
  pose proof (Z.pow_le_mono_r 2 _ 64 ltac:(lia) (proj2 Hb)). lia.
Qed.

(** Parsing the decimal rendering of [n] with a width of [b] bits gives
    [n] back when [n] is a signed [b]-bit integer. *)
Lemma ParseInt_Itoa arch fn bitSize b n :
  b = (if bitSize =? 0 then IntSize arch else bitSize) ->
  1 <= b <= 64 ->
  - 2 ^ (b - 1) <= n < 2 ^ (b - 1) ->
  strconv.ParseInt_as arch fn (strconv.Itoa n) bitSize = Ok n.
Proof.
  intros Hb Hrange Hn.
  assert (Hpow : 2 ^ b = 2 * 2 ^ (b - 1)).
  { rewrite <- Z.pow_succ_r by lia. f_equal. lia. }
  assert (Hpos : 0 < 2 ^ (b - 1)) by (apply Z.pow_pos_nonneg; lia).
  unfold strconv.Itoa, strconv.ParseInt_as.
  destruct (Z.ltb_spec n 0) as [Hneg | Hnonneg].
  - destruct (FormatUint_digits (- n) ltac:(lia)) as (Hall & Hne & Hval).
    change (Ascii.eqb "-" "+") with false. change (Ascii.eqb "-" "-") with true.
    cbv zeta. simpl orb. cbv iota.
    rewrite (ParseUint_digits arch _ bitSize b (- n)) by (auto; lia).
    rewrite <- Hb. simpl.
    rewrite (proj2 (Z.ltb_ge (2 ^ (b - 1)) (- n))) by lia.
    f_equal. lia.
  - destruct (FormatUint_digits n ltac:(lia)) as (Hall & Hne & Hval).
    destruct (strconv.FormatUint n) as [|c0 rest] eqn:Hfmt; [done|].
    pose proof Hall as Hc0. simpl in Hc0. apply andb_true_iff in Hc0 as [Hc0 _].
    destruct (digit_not_sign c0 Hc0) as [-> ->].
    cbv zeta. simpl orb. cbv iota.
    rewrite (ParseUint_digits arch _ bitSize b n) by (auto; lia).
    rewrite <- Hb. simpl.
    rewrite (proj2 (Z.leb_gt (2 ^ (b - 1)) n)) by lia.
    reflexivity.
Qed.

Lemma Itoa_numeric n :
  allChars isNumeric (strconv.Itoa n) = true /\ strconv.Itoa n <> "".
Proof.
  assert (Hd : forall c, isDigit c = true -> isNumeric c = true).
  { intros c Hc. unfold isNumeric. by rewrite Hc. }
  unfold strconv.Itoa. destruct (Z.ltb_spec n 0) as [Hneg | Hnonneg].
  - destruct (FormatUint_digits (- n) ltac:(lia)) as (Hall & _ & _).
    split; [|discriminate]. simpl.
    by rewrite (allChars_impl isDigit isNumeric _ Hd Hall).
  - destruct (FormatUint_digits n ltac:(lia)) as (Hall & Hne & _).
    split; [|assumption]. by apply (allChars_impl isDigit isNumeric).
Qed.

(** ** Trimming and splitting rendered integers *)

Lemma numeric_byte c :
  isNumeric c = true -> byte c = 45 \/ 48 <= byte c <= 57.
Proof.
  unfold isNumeric, isDigit.
  intros [[H1%Z.leb_le H2%Z.leb_le]%andb_true_iff | H%Z.eqb_eq]%orb_true_iff; lia.
Qed.

Lemma dropSpaceRune_numeric c r :
  isNumeric c = true -> strings.dropSpaceRune (String c r) = None.
Proof.
  intros Hc%numeric_byte. unfold strings.dropSpaceRune.
  destruct r as [|c2 [|c3 r3]]; cbv zeta; decide_byte_tests; reflexivity.
Qed.

Lemma dropSpaceRuneRev_numeric c r :
  isNumeric c = true -> strings.dropSpaceRuneRev (String c r) = None.
Proof.
  intros Hc%numeric_byte. unfold strings.dropSpaceRuneRev.
  destruct r as [|c2 [|c3 r3]]; cbv zeta;
    repeat (match goal with
            | |- context [Z.leb ?a (byte c)] => destruct (Z.leb_spec a (byte c)); try lia
            | |- context [Z.leb (byte c) ?b] => destruct (Z.leb_spec (byte c) b); try lia
            | |- context [Z.eqb (byte c) ?b] => destruct (Z.eqb_spec (byte c) b); try lia
            end; simpl);
    reflexivity.
Qed.

Lemma trimWith_numeric drop fuel (s : string) :
  drop "" = None ->
  (forall c r, isNumeric c = true -> drop (String c r) = None) ->
  allChars isNumeric s = true ->
  strings.trimWith drop fuel s = s.
Proof.
  intros Hnil Hdrop Hs. destruct fuel as [|fuel]; [reflexivity|].
  destruct s as [|c r]; simpl in *.
  - by rewrite Hnil.
  - apply andb_true_iff in Hs as [Hc _]. by rewrite Hdrop.
Qed.

Lemma rev_app_chars P (s t : string) :
  allChars P (String.rev_app s t) = allChars P s && allChars P t.
Proof.
  revert t. induction s as [|c s IH]; intros t; simpl; [reflexivity|].
  rewrite IH. simpl. destruct (P c), (allChars P s); reflexivity.
Qed.

Lemma rev_app_rev_app (s : string) : forall t u,
  String.rev_app (String.rev_app s t) u = String.rev_app t (s +:+ u).
Proof.
  induction s as [|c s IH]; intros t u; simpl; [reflexivity|].
  by rewrite IH.
Qed.

Lemma rev_involutive (s : string) : String.rev (String.rev s) = s.
Proof.
  unfold String.rev. rewrite rev_app_rev_app. simpl. apply append_nil_r.
Qed.

Lemma TrimSpace_numeric (s : string) :
  allChars isNumeric s = true -> strings.TrimSpace s = s.
Proof.
  intros Hs. unfold strings.TrimSpace, strings.TrimLeftSpace, strings.TrimRightSpace.
  rewrite (trimWith_numeric _ _ s eq_refl dropSpaceRune_numeric Hs).
  rewrite (trimWith_numeric _ _ (String.rev s) eq_refl dropSpaceRuneRev_numeric).
  - apply rev_involutive.
  - unfold String.rev. rewrite rev_app_chars, Hs. reflexivity.
Qed.

Lemma numeric_notComma c : isNumeric c = true -> notComma c = true.
Proof.
  intros Hc%numeric_byte. unfold notComma.
  apply negb_true_iff, Ascii.eqb_neq. intros ->. vm_compute in Hc.
  destruct Hc as [Hc | [Hc _]]; [discriminate | by apply Hc].
Qed.

Lemma Split_single (t : string) :
  allChars notComma t = true -> strings.Split t "," = [t].
Proof.
  induction t as [|c t IH]; simpl; [reflexivity|].
  intros [Hc Ht]%andb_true_iff. unfold notComma in Hc.
  apply negb_true_iff in Hc. rewrite Hc, IH by assumption. reflexivity.
Qed.

Lemma Split_token (t s : string) :
  allChars notComma t = true ->
  strings.Split (t +:+ String "," s) "," = t :: strings.Split s ",".
Proof.
  induction t as [|c t IH]; [reflexivity|].
  rewrite append_cons. simpl.
  intros [Hc Ht]%andb_true_iff. unfold notComma in Hc.
  apply negb_true_iff in Hc. rewrite Hc, IH by assumption. reflexivity.
Qed.

Lemma Split_Join (tokens : list string) :
  tokens <> [] -> Forall (fun t => allChars notComma t = true) tokens ->
  strings.Split (strings.Join tokens ",") "," = tokens.
Proof.
  unfold strings.Join.
  induction tokens as [|t tokens IH]; [done|]. intros _ Hall.
  inversion Hall as [|? ? Ht Hrest]; subst.
  destruct tokens as [|t' tokens].
  - simpl. by apply Split_single.
  - change (String.concat "," (t :: t' :: tokens)) with
      (t +:+ String "," (String.concat "," (t' :: tokens))).
    rewrite Split_token by assumption. f_equal. by apply IH.
Qed.

(** ** Round trip *)

Lemma tokenValue_Itoa parse n :
  parse (strconv.Itoa n) = Ok n -> tokenValue parse (strconv.Itoa n) = Ok n.
Proof.
  intros Hparse. destruct (Itoa_numeric n) as [Hnum Hne].
  unfold tokenValue. rewrite (TrimSpace_numeric _ Hnum).
  apply isEmpty_false in Hne. by rewrite Hne.
Qed.

Lemma tokenLoop_Itoa parse wrap (seq : list Z) :
  seq <> [] ->
  Forall (fun n => parse (strconv.Itoa n) = Ok n) seq ->
  tokenLoop parse wrap 0
    (strings.Split (strings.Join (map strconv.Itoa seq) ",") ",") [] = Ok seq.
Proof.
  intros Hne Hall.
  rewrite Split_Join.
  - rewrite tokenLoop_ok.
    + simpl. f_equal. induction Hall as [|n seq' Hn _ IH]; [reflexivity|].
      simpl. unfold tokenInt at 1. rewrite (tokenValue_Itoa _ _ Hn).
      f_equal. destruct seq' as [|m seq'']; [reflexivity|]. by apply IH.
    + apply Forall_map. eapply Forall_impl; [exact Hall|].
      intros n Hn. unfold tokenOk. simpl. by rewrite (tokenValue_Itoa _ _ Hn).
  - by destruct seq.
  - apply Forall_map, Forall_forall. intros n _. simpl.
    eapply allChars_impl; [apply numeric_notComma | apply Itoa_numeric].
Qed.

(** C8, counterexample: the empty sequence joins to the empty string,
    which both parsers read as one empty token, hence as the one-element
    sequence [0]. *)
Lemma round_trip_fails_on_empty :
  parseIntSlice Arch64 (strings.Join (map strconv.Itoa []) ",") = Ok [0] /\
  parseInt64Slice Arch64 (strings.Join (map strconv.Itoa []) ",") = Ok [0] /\
  parseIntSlice Arch64 (strings.Join (map strconv.Itoa []) ",") <> Ok [].
Proof. vm_compute. repeat split; congruence. Qed.

(** C8, amended: for every non-empty sequence of integers that fit the
    target width, parsing the comma-join of their decimal renderings
    gives the sequence back, with [parseIntSlice] for the width of [int]
    (so for 32 bits on every platform) and with [parseInt64Slice] for 64
    bits. *)
Theorem round_trip arch (seq : list Z) :
  seq <> [] ->
  (Forall (fits (IntSize arch)) seq ->
   parseIntSlice arch (strings.Join (map strconv.Itoa seq) ",") = Ok seq) /\
  (Forall (fits 32) seq ->
   parseIntSlice arch (strings.Join (map strconv.Itoa seq) ",") = Ok seq) /\
  (Forall (fits 64) seq ->
   parseInt64Slice arch (strings.Join (map strconv.Itoa seq) ",") = Ok seq).
Proof.
  intros Hne.
  assert (Hint : Forall (fits (IntSize arch)) seq ->
                 parseIntSlice arch (strings.Join (map strconv.Itoa seq) ",") = Ok seq).
  { intros Hfit.
    unfold parseIntSlice. rewrite parseIntSlice_loop_tokenLoop.
    apply tokenLoop_Itoa; [assumption|].
    eapply Forall_impl; [exact Hfit|]. intros n Hn. simpl.
    apply (ParseInt_Itoa arch "Atoi" 0 (IntSize arch)); auto.
    destruct arch; simpl; lia. }
  refine (conj Hint (conj _ _)); intros Hfit.
  - apply Hint. eapply Forall_impl; [exact Hfit|].
    intros n Hn. unfold fits in *. destruct arch; simpl in *; lia.
  - unfold parseInt64Slice. rewrite parseInt64Slice_loop_tokenLoop.
    apply tokenLoop_Itoa; [assumption|].
    eapply Forall_impl; [exact Hfit|]. intros n Hn. simpl.
    apply (ParseInt_Itoa arch "ParseInt" 64 64); auto. lia.
Qed.

Lemma round_trip_witness :
  parseIntSlice Arch32 (strings.Join (map strconv.Itoa [8080; -1; 0; 2147483647]) ",")
    = Ok [8080; -1; 0; 2147483647] /\
  parseInt64Slice Arch32
    (strings.Join (map strconv.Itoa [-9223372036854775808; 9223372036854775807]) ",")
    = Ok [-9223372036854775808; 9223372036854775807].
Proof.
  split.
  - refine (proj1 (round_trip Arch32 [8080; -1; 0; 2147483647] _) _);
      [discriminate|].
    repeat constructor; vm_compute; discriminate.
  - refine (proj2 (proj2 (round_trip Arch32
              [-9223372036854775808; 9223372036854775807] _)) _);
      [discriminate|].
    repeat constructor; vm_compute; discriminate.
Defined.

(** ** The cases of the package's test suite *)

Example TestGet_set :
  Get {[ "TEST_KEY" := "env_value" ]} "TEST_KEY" "default" = "env_value".
Proof. vm_compute. reflexivity. Qed.

Example TestGet_missing : Get ∅ "TEST_KEY_MISSING" "default" = "default".
Proof. vm_compute. reflexivity. Qed.

Example TestGet_empty :
  Get {[ "TEST_KEY_EMPTY" := "" ]} "TEST_KEY_EMPTY" "default" = "default".
Proof. vm_compute. reflexivity. Qed.

Example TestGetBool_one :
  GetBool {[ "TEST_BOOL_ONE" := "1" ]} "TEST_BOOL_ONE" false = true.
Proof. vm_compute. reflexivity. Qed.

Example TestGetBool_invalid :
  GetBool {[ "TEST_BOOL_INVALID" := "invalid" ]} "TEST_BOOL_INVALID" false = false.
Proof. vm_compute. reflexivity. Qed.

Example TestGetIntSlice_negative :
  GetIntSlice Arch64 {[ "K" := "-10,-20,-30" ]} "K" [0] = [-10; -20; -30].
Proof. vm_compute. reflexivity. Qed.

Example TestGetIntSlice_empty_values :
  GetIntSlice Arch32 {[ "K" := "1,,3" ]} "K" [0] = [1; 0; 3].
Proof. vm_compute. reflexivity. Qed.

Example TestLoadStruct_multi :
  LoadStruct Arch64
    {[ "TEST_NAME_MULTI" := "server"; "TEST_PORT_MULTI" := "8080";
       "TEST_ENABLED_MULTI" := "true"; "TEST_PORTS_MULTI" := "8080,8081" ]}
    (Ptr (StructVal
       [mkField "TEST_NAME_MULTI" "" (mkValue true (reflect.DString ""));
        mkField "TEST_PORT_MULTI" "" (mkValue true (reflect.DInt 0));
        mkField "TEST_ENABLED_MULTI" "" (mkValue true (reflect.DBool false));
        mkField "TEST_PORTS_MULTI" "" (mkValue true (reflect.DSlice reflect.Int []))]))
  = (Ptr (StructVal
       [mkField "TEST_NAME_MULTI" "" (mkValue true (reflect.DString "server"));
        mkField "TEST_PORT_MULTI" "" (mkValue true (reflect.DInt 8080));
        mkField "TEST_ENABLED_MULTI" "" (mkValue true (reflect.DBool true));
        mkField "TEST_PORTS_MULTI" ""
          (mkValue true (reflect.DSlice reflect.Int [8080; 8081]))]),
     None).
Proof. vm_compute. reflexivity. Qed.

Example TestLoadStruct_default :
  LoadStruct Arch64 ∅
    (Ptr (StructVal [mkField "TEST_PORT" "8080" (mkValue true (reflect.DInt 0))]))
  = (Ptr (StructVal [mkField "TEST_PORT" "8080" (mkValue true (reflect.DInt 8080))]),
     None).
Proof. vm_compute. reflexivity. Qed.

Example TestLoadStruct_spaces :
  LoadStruct Arch64 {[ "TEST_PORTS_SPACES" := " 1 , 2 , 3 " ]}
    (Ptr (StructVal
       [mkField "TEST_PORTS_SPACES" "" (mkValue true (reflect.DSlice reflect.Int []))]))
  = (Ptr (StructVal
       [mkField "TEST_PORTS_SPACES" ""
          (mkValue true (reflect.DSlice reflect.Int [1; 2; 3]))]),
     None).
Proof. vm_compute. reflexivity. Qed.

Example TestLoadStruct_invalid_in_slice :
  snd (LoadStruct Arch64 {[ "TEST_PORTS_INVALID" := "8080,not_a_number,8082" ]}
         (Ptr (StructVal
            [mkField "TEST_PORTS_INVALID" ""
               (mkValue true (reflect.DSlice reflect.Int []))])))
  = Some (ErrEnv "TEST_PORTS_INVALID"
            (ErrInvalidElem 1 (NumError "ParseInt" "not_a_number" ErrSyntax))).
Proof. vm_compute. reflexivity. Qed.

Example TestLoadStruct_array_mismatch :
  snd (LoadStruct Arch64 {[ "TEST_FIXED_MISMATCH" := "1,2" ]}
         (Ptr (StructVal
            [mkField "TEST_FIXED_MISMATCH" ""
               (mkValue true (reflect.DArray reflect.Int [0; 0; 0]))])))
  = Some (ErrEnv "TEST_FIXED_MISMATCH" (ErrArrayLength 2 3)).
Proof. vm_compute. reflexivity. Qed.

(** A variable set to the empty string hides the default annotation on
    the struct path: the integer field becomes 0, not 8080. *)
Example LoadStruct_empty_variable :
  LoadStruct Arch64 {[ "PORT" := "" ]}
    (Ptr (StructVal [mkField "PORT" "8080" (mkValue true (reflect.DInt 5))]))
  = (Ptr (StructVal [mkField "PORT" "8080" (mkValue true (reflect.DInt 0))]), None).
Proof. vm_compute. reflexivity. Qed.

(** White space other than blanks is trimmed too, in its UTF-8
    encoding: a no-break space (C2 A0) before and an ideographic space
    (E3 80 80) after a token. *)
Example TrimSpace_unicode :
  strings.TrimSpace
    (String "194" (String "160" ("42" +:+ String "227" (String "128" (String "128" "")))))
  = "42".
Proof. vm_compute. reflexivity. Qed.

Example Atoi_range32 :
  strconv.Atoi Arch32 "2147483648" = Err (NumError "Atoi" "2147483648" ErrRange) /\
  strconv.Atoi Arch64 "2147483648" = Ok 2147483648 /\
  strconv.Atoi Arch64 "+7" = Ok 7 /\
  strconv.Atoi Arch64 "-" = Err (NumError "Atoi" "-" ErrSyntax).
Proof. vm_compute. repeat split; reflexivity. Qed.

(** * Further properties of the package *)

(** ** What setValue keeps *)

(** X1: a call of [setValue] that returns an error has written nothing:
    the field is as it was before the call.  In particular an array is
    never left half written by a list whose later token does not parse. *)
Theorem setValue_error_writes_nothing arch (field : Value) value :
  snd (setValue arch field value) <> None ->
  fst (setValue arch field value) = field.
Proof.
  destruct (setValue arch field value) as [field' [e|]] eqn:Hset; simpl.
  - intros _. by apply setValue_error_unchanged in Hset.
  - done.
Qed.

Lemma setValue_error_writes_nothing_witness :
  let field := mkValue true (reflect.DArray reflect.Int [7; 8; 9]) in
  fst (setValue Arch64 field "1,2,x") = field.
Proof.
  intros field. apply (setValue_error_writes_nothing Arch64 field "1,2,x").
  vm_compute. discriminate.
Defined.

Lemma intElem_dec ek : {intElem ek} + {~ intElem ek}.
Proof.
  unfold intElem.
  destruct (decide (ek = reflect.Int)); [by left; left|].
  destruct (decide (ek = reflect.Int64)); [by left; right|].
  right. by intros [|].
Qed.

Lemma not_intElem_check ek :
  ~ intElem ek ->
  bool_decide (ek <> reflect.Int) && bool_decide (ek <> reflect.Int64) = true.
Proof.
  unfold intElem. intros H.
  rewrite !bool_decide_eq_true_2; [reflexivity | |]; intros ->; apply H; auto.
Qed.

Lemma setSliceOrArray_empty_slice arch (field : Value) ek xs :
  intElem ek -> Data field = reflect.DSlice ek xs ->
  setSliceOrArray arch field "" =
    (reflect.withData field (reflect.DSlice ek []), None).
Proof.
  intros Hek Hd. unfold setSliceOrArray, reflect.ElemKind, reflect.KindOf.
  rewrite Hd, intElem_check by assumption. reflexivity.
Qed.

Lemma setSliceOrArray_empty_array arch (field : Value) ek xs :
  intElem ek -> Data field = reflect.DArray ek xs ->
  setSliceOrArray arch field "" =
    (reflect.withData field (reflect.DArray ek (replicate (length xs) 0)), None).
Proof.
  intros Hek Hd.
  unfold setSliceOrArray, reflect.ElemKind, reflect.KindOf, reflect.Len.
  rewrite Hd, intElem_check by assumption. simpl.
  rewrite zero_loop_store.
  rewrite (store_whole arch reflect.DArray ek _ field xs)
    by (auto using container; apply length_replicate).
  by rewrite map_storeInt_zeros.
Qed.

Lemma setSliceOrArray_parse_length arch tokens vs :
  setSliceOrArray_parse arch 0 tokens [] = Ok vs -> length vs = length tokens.
Proof.
  rewrite setSliceOrArray_parse_tokenLoop. intros H.
  by apply tokenLoop_length in H.
Qed.

Lemma sameShape_refl v : sameShape v v.
Proof. by repeat split. Qed.

Lemma setSliceOrArray_shape arch (field : Value) value :
  sameShape field (fst (setSliceOrArray arch field value)).
Proof.
  destruct (snd (setSliceOrArray arch field value)) as [e|] eqn:Herr.
  { destruct (setSliceOrArray arch field value) as [f' o] eqn:Hs.
    simpl in *. subst o. apply setSliceOrArray_error_unchanged in Hs as ->.
    apply sameShape_refl. }
  destruct field as [cs d].
  destruct d as [s|b|n|n|ek xs|ek xs|k];
    try (unfold setSliceOrArray in Herr; simpl in Herr; discriminate).
  - destruct (intElem_dec ek) as [Hek|Hek].
    + destruct value as [|c value].
      * unfold setSliceOrArray. simpl. rewrite intElem_check by assumption.
        by repeat split.
      * rewrite (setSliceOrArray_slice arch _ ek xs) by done.
        destruct (setSliceOrArray_parse _ _ _ _); by repeat split.
    + unfold setSliceOrArray in Herr. simpl in Herr.
      rewrite not_intElem_check in Herr by assumption. discriminate.
  - destruct (intElem_dec ek) as [Hek|Hek].
    + destruct value as [|c value].
      * rewrite (setSliceOrArray_empty_array arch _ ek xs) by done.
        repeat split. intros _. simpl. unfold reflect.Len. simpl.
        apply length_replicate.
      * rewrite (setSliceOrArray_array arch _ ek xs) by done.
        case_bool_decide as Hlen; [|by repeat split].
        destruct (setSliceOrArray_parse _ _ _ _) as [vs|e] eqn:Hp;
          [|by repeat split].
        apply setSliceOrArray_parse_length in Hp.
        repeat split. intros _. unfold reflect.Len. simpl.
        rewrite length_map. congruence.
    + unfold setSliceOrArray in Herr. simpl in Herr.
      rewrite not_intElem_check in Herr by assumption. discriminate.
Qed.

Ltac scalar_shape field value Hk parsed :=
  destruct field as [cs d]; destruct d; try discriminate;
  unfold reflect.KindOf in Hk; simpl in Hk; subst;
  destruct (isEmpty value); try destruct parsed;
  by repeat split.

Lemma setValue_sameShape arch (field : Value) value :
  sameShape field (fst (setValue arch field value)).
Proof.
  unfold setValue. destruct (CanSet field) eqn:Hcs; simpl;
    [|apply sameShape_refl].
  destruct (reflect.KindOf field) eqn:Hk; try apply sameShape_refl;
    try apply setSliceOrArray_shape.
  - scalar_shape field value Hk (strconv.ParseBool value).
  - scalar_shape field value Hk (strconv.ParseInt arch value 64).
  - scalar_shape field value Hk (strconv.ParseInt arch value 64).
  - destruct field as [cs d]; destruct d; try discriminate;
      unfold reflect.KindOf in Hk; simpl in Hk; subst; by repeat split.
Qed.

(** X2: [setValue] never changes the shape of a field: after the call,
    with or without error, the field is as settable as before, has the
    same kind and the same element kind, and an array has the same
    length. *)
Theorem setValue_keeps_shape arch (field : Value) value :
  let field' := fst (setValue arch field value) in
  CanSet field' = CanSet field /\
  reflect.KindOf field' = reflect.KindOf field /\
  reflect.ElemKind field' = reflect.ElemKind field /\
  (reflect.KindOf field = reflect.Array ->
   reflect.Len field' = reflect.Len field).
Proof.
  cbv zeta. unfold setValue.
  destruct (CanSet field) eqn:Hcs; simpl; [|by repeat split].
  destruct (reflect.KindOf field) eqn:Hk; try (by repeat split).
  - scalar_shape field value Hk (strconv.ParseBool value).
  - scalar_shape field value Hk (strconv.ParseInt arch value 64).
  - scalar_shape field value Hk (strconv.ParseInt arch value 64).
  - (* an array: the parsed values are as many as the elements *)
    pose proof (setSliceOrArray_shape arch field value) as (H1 & H2 & H3 & H4).
    rewrite Hk in *. repeat split; auto. by rewrite Hcs in H1.
  - (* a slice: the fresh slice has the kind and element kind of the old *)
    pose proof (setSliceOrArray_shape arch field value) as (H1 & H2 & H3 & H4).
    rewrite Hk in *. repeat split; auto. by rewrite Hcs in H1.
  - destruct field as [cs d]; destruct d; try discriminate;
      unfold reflect.KindOf in Hk; simpl in Hk; subst; by repeat split.
Qed.

Lemma setValue_keeps_shape_witness :
  reflect.Len (fst (setValue Arch64
                      (mkValue true (reflect.DArray reflect.Int [7; 8; 9])) "4,5,6"))
  = 3%nat.
Proof.
  apply (setValue_keeps_shape Arch64
           (mkValue true (reflect.DArray reflect.Int [7; 8; 9])) "4,5,6").
  reflexivity.
Defined.

(** ** Kinds without a case *)

(** X3: on a settable field whose kind has no case in [setValue], and on
    a settable slice or array whose elements are neither [int] nor
    [int64], the call fails with an error that names the kind, whatever
    the raw string is (the empty string included), and writes nothing. *)
Theorem setValue_unsupported arch (field : Value) value :
  CanSet field = true ->
  (supportedKind (reflect.KindOf field) = false ->
   setValue arch field value =
     (field, Some (ErrUnsupportedKind (reflect.KindOf field)))) /\
  (reflect.KindOf field = reflect.Slice \/ reflect.KindOf field = reflect.Array ->
   ~ intElem (reflect.ElemKind field) ->
   setValue arch field value =
     (field, Some (ErrUnsupportedElem (reflect.ElemKind field)))).
Proof.
  intros Hcs. unfold setValue. rewrite Hcs. simpl. split.
  - intros Hk. destruct (reflect.KindOf field); try reflexivity;
      vm_compute in Hk; discriminate.
  - intros Hk Hek. unfold setSliceOrArray.
    rewrite not_intElem_check by assumption.
    destruct Hk as [-> | ->]; reflexivity.
Qed.

Lemma setValue_unsupported_witness :
  setValue Arch64 (mkValue true (reflect.DOther reflect.Float64)) "1.5" =
    (mkValue true (reflect.DOther reflect.Float64),
     Some (ErrUnsupportedKind reflect.Float64)) /\
  setValue Arch64 (mkValue true (reflect.DSlice reflect.String [])) "" =
    (mkValue true (reflect.DSlice reflect.String []),
     Some (ErrUnsupportedElem reflect.String)).
Proof.
  split.
  - apply (setValue_unsupported Arch64
             (mkValue true (reflect.DOther reflect.Float64)) "1.5");
      reflexivity.
  - apply (setValue_unsupported Arch64
             (mkValue true (reflect.DSlice reflect.String [])) "");
      [reflexivity | by left |].
    intros [H | H]; discriminate.
Defined.

(** ** Integer fields *)

Lemma wrapSigned_fits w n : 1 <= w -> fits w n -> wrapSigned w n = n.
Proof.
  intros Hw [H1 H2]. unfold wrapSigned.
  assert (Hpow : 2 ^ w = 2 * 2 ^ (w - 1)).
  { rewrite <- Z.pow_succ_r by lia. f_equal. lia. }
  rewrite Z.mod_small by lia. lia.
Qed.

Lemma Itoa_not_empty n : isEmpty (strconv.Itoa n) = false.
Proof. apply isEmpty_false, Itoa_numeric. Qed.

(** X4: the decimal rendering of a 64-bit integer [n] is accepted by a
    settable integer field without error.  An [int64] field then holds
    [n]; an [int] field holds [int(n)], which is [n] when [n] fits the
    platform's [int] and its truncation to 32 bits otherwise: a value too
    wide for [int] is stored truncated, not rejected. *)
Theorem setValue_integer arch (field : Value) n m :
  CanSet field = true -> fits 64 n ->
  (Data field = reflect.DInt64 m ->
   setValue arch field (strconv.Itoa n) =
     (reflect.withData field (reflect.DInt64 n), None)) /\
  (Data field = reflect.DInt m ->
   setValue arch field (strconv.Itoa n) =
     (reflect.withData field (reflect.DInt (wrapSigned (IntSize arch) n)), None)) /\
  (fits (IntSize arch) n -> wrapSigned (IntSize arch) n = n).
Proof.
  intros Hcs Hn.
  assert (Hparse : strconv.ParseInt arch (strconv.Itoa n) 64 = Ok n)
    by (apply (ParseInt_Itoa arch "ParseInt" 64 64); auto; lia).
  refine (conj _ (conj _ _)).
  - intros Hd. unfold setValue, reflect.KindOf, reflect.SetInt.
    rewrite Hcs, Hd, Itoa_not_empty, Hparse. reflexivity.
  - intros Hd. unfold setValue, reflect.KindOf, reflect.SetInt.
    rewrite Hcs, Hd, Itoa_not_empty, Hparse. reflexivity.
  - apply wrapSigned_fits. destruct arch; simpl; lia.
Qed.

Lemma setValue_integer_witness :
  setValue Arch32 (mkValue true (reflect.DInt 0)) (strconv.Itoa 4294967297) =
    (mkValue true (reflect.DInt 1), None) /\
  setValue Arch64 (mkValue true (reflect.DInt 0)) (strconv.Itoa 4294967297) =
    (mkValue true (reflect.DInt 4294967297), None).
Proof.
  split.
  - refine (proj1 (proj2 (setValue_integer Arch32 (mkValue true (reflect.DInt 0))
                            4294967297 0 eq_refl _)) eq_refl).
    vm_compute. split; [discriminate | reflexivity].
  - refine (proj1 (proj2 (setValue_integer Arch64 (mkValue true (reflect.DInt 0))
                            4294967297 0 eq_refl _)) eq_refl).
    vm_compute. split; [discriminate | reflexivity].
Defined.

(** ** Writing twice *)

Lemma setSliceOrArray_idem arch (field : Value) value :
  setSliceOrArray arch (fst (setSliceOrArray arch field value)) value =
    setSliceOrArray arch field value.
Proof.
  destruct (setSliceOrArray arch field value) as [f' [e|]] eqn:Hs.
  { pose proof Hs as Hs'.
    apply setSliceOrArray_error_unchanged in Hs' as ->. exact Hs. }
  simpl. rewrite <- Hs.
  destruct field as [cs d].
  destruct d as [s|b|n|n|ek xs|ek xs|k];
    try (unfold setSliceOrArray in Hs; simpl in Hs; discriminate).
  - set (f0 := {| CanSet := cs; Data := reflect.DSlice ek xs |}) in *.
    destruct (intElem_dec ek) as [Hek|Hek].
    + destruct value as [|c value].
      * rewrite (setSliceOrArray_empty_slice arch f0 ek xs) in Hs |- * by done.
        injection Hs as <-.
        by rewrite (setSliceOrArray_empty_slice arch _ ek []) by done.
      * rewrite (setSliceOrArray_slice arch f0 ek xs) in Hs |- * by done.
        destruct (setSliceOrArray_parse arch 0 _ []) as [vs|e] eqn:Hp;
          [|discriminate].
        injection Hs as <-.
        rewrite (setSliceOrArray_slice arch _ ek
                   (map (reflect.storeInt arch ek) vs)) by done.
        by rewrite Hp.
    + unfold setSliceOrArray in Hs. simpl in Hs.
      rewrite not_intElem_check in Hs by assumption. discriminate.
  - set (f0 := {| CanSet := cs; Data := reflect.DArray ek xs |}) in *.
    destruct (intElem_dec ek) as [Hek|Hek].
    + destruct value as [|c value].
      * rewrite (setSliceOrArray_empty_array arch f0 ek xs) in Hs |- * by done.
        injection Hs as <-.
        rewrite (setSliceOrArray_empty_array arch _ ek (replicate (length xs) 0))
          by done.
        by rewrite length_replicate.
      * rewrite (setSliceOrArray_array arch f0 ek xs) in Hs |- * by done.
        case_bool_decide as Hlen; [|discriminate].
        destruct (setSliceOrArray_parse arch 0 _ []) as [vs|e] eqn:Hp;
          [|discriminate].
        injection Hs as <-.
        pose proof (setSliceOrArray_parse_length _ _ _ Hp) as Hvs.
        rewrite (setSliceOrArray_array arch _ ek
                   (map (reflect.storeInt arch ek) vs)) by done.
        rewrite length_map, Hp.
        rewrite bool_decide_eq_true_2 by congruence. reflexivity.
    + unfold setSliceOrArray in Hs. simpl in Hs.
      rewrite not_intElem_check in Hs by assumption. discriminate.
Qed.

Lemma setValue_idem arch (field : Value) value :
  setValue arch (fst (setValue arch field value)) value =
    setValue arch field value.
Proof.
  destruct field as [cs d]. destruct cs; [|reflexivity].
  destruct d as [s|b|n|n|ek xs|ek xs|k].
  - reflexivity.
  - unfold setValue. simpl. destruct (isEmpty value); [reflexivity|].
    destruct (strconv.ParseBool value); reflexivity.
  - unfold setValue. simpl. destruct (isEmpty value); [reflexivity|].
    destruct (strconv.ParseInt arch value 64); reflexivity.
  - unfold setValue. simpl. destruct (isEmpty value); [reflexivity|].
    destruct (strconv.ParseInt arch value 64); reflexivity.
  - change (setValue arch {| CanSet := true; Data := reflect.DSlice ek xs |} value)
      with (setSliceOrArray arch {| CanSet := true; Data := reflect.DSlice ek xs |} value).
    pose proof (setSliceOrArray_shape arch
                  {| CanSet := true; Data := reflect.DSlice ek xs |} value)
      as (Hcs & Hk & _).
    pose proof (setSliceOrArray_idem arch
                  {| CanSet := true; Data := reflect.DSlice ek xs |} value) as Hidem.
    unfold setValue at 1. rewrite Hcs, Hk. exact Hidem.
  - change (setValue arch {| CanSet := true; Data := reflect.DArray ek xs |} value)
      with (setSliceOrArray arch {| CanSet := true; Data := reflect.DArray ek xs |} value).
    pose proof (setSliceOrArray_shape arch
                  {| CanSet := true; Data := reflect.DArray ek xs |} value)
      as (Hcs & Hk & _).
    pose proof (setSliceOrArray_idem arch
                  {| CanSet := true; Data := reflect.DArray ek xs |} value) as Hidem.
    unfold setValue at 1. rewrite Hcs, Hk. exact Hidem.
  - destruct k; try reflexivity.
    + unfold setValue. simpl. destruct (isEmpty value); [reflexivity|].
      destruct (strconv.ParseBool value); reflexivity.
    + unfold setValue. simpl. destruct (isEmpty value); [reflexivity|].
      destruct (strconv.ParseInt arch value 64); reflexivity.
    + unfold setValue. simpl. destruct (isEmpty value); [reflexivity|].
      destruct (strconv.ParseInt arch value 64); reflexivity.
Qed.

Lemma LoadStruct_fields_idem arch env fields :
  LoadStruct_fields arch env (fst (LoadStruct_fields arch env fields)) =
    LoadStruct_fields arch env fields.
Proof.
  induction fields as [|f fields IH]; [reflexivity|].
  simpl. destruct (isEmpty (TagEnv f)) eqn:Hname.
  - destruct (LoadStruct_fields arch env fields) as [rest' err] eqn:Hrest.
    simpl in *. by rewrite Hname, IH.
  - pose proof (setValue_idem arch (FieldValue f)
                  (getEnvValue env (TagEnv f) (TagDefault f))) as Hidem.
    destruct (setValue arch (FieldValue f) _) as [v [e|]] eqn:Hset; simpl in *.
    + by rewrite Hname, Hidem.
    + destruct (LoadStruct_fields arch env fields) as [rest' err] eqn:Hrest.
      simpl in *. by rewrite Hname, Hidem, IH.
Qed.

(** X5: populating is idempotent.  Calling [LoadStruct] again on the
    result of a call, under the same environment, changes nothing and
    returns the same error; the same holds for [setValue] with the same
    raw string. *)
Theorem LoadStruct_idempotent arch env :
  (forall cfg,
      LoadStruct arch env (fst (LoadStruct arch env cfg)) = LoadStruct arch env cfg) /\
  (forall (field : Value) value,
      setValue arch (fst (setValue arch field value)) value =
        setValue arch field value).
Proof.
  split; [|apply setValue_idem].
  intros cfg. unfold LoadStruct at 2 3.
  destruct (bool_decide (anyKind cfg <> reflect.Pointer) ||
            bool_decide (anyKind (anyElem cfg) <> reflect.Struct)) eqn:Hpre.
  - simpl. unfold LoadStruct. by rewrite Hpre.
  - pose proof (LoadStruct_fields_idem arch env (anyFields (anyElem cfg))) as Hidem.
    destruct (LoadStruct_fields arch env (anyFields (anyElem cfg)))
      as [fields err] eqn:Hf.
    simpl in *. unfold LoadStruct. simpl. by rewrite Hidem.
Qed.

(** ** The outcome of LoadStruct *)

Lemma first_failing_field arch env (fields : list Field) :
  Forall (fun g => fieldError arch env g = None) fields \/
  exists pre f post e,
    fields = pre ++ f :: post /\
    Forall (fun g => fieldError arch env g = None) pre /\
    fieldError arch env f = Some e.
Proof.
  induction fields as [|f fields IH]; [left; constructor|].
  destruct (fieldError arch env f) as [e|] eqn:Hf.
  - right. exists [], f, fields, e. repeat split; auto.
  - destruct IH as [IH | (pre & g & post & e & -> & Hpre & Hg)].
    + left. by constructor.
    + right. exists (f :: pre), g, post, e. repeat split; auto.
Qed.

(** X6: on a pointer to a struct, [LoadStruct] returns nil exactly when
    no annotated field fails on its resolved raw string, and then every
    field holds what [setValue] wrote for it, fields without an [env] tag
    being left alone; each field is handled on its own, without regard
    to the others. *)
Theorem LoadStruct_succeeds_iff arch env (fields : list Field) :
  (snd (LoadStruct arch env (Ptr (StructVal fields))) = None <->
   Forall (fun f => fieldError arch env f = None) fields) /\
  (snd (LoadStruct arch env (Ptr (StructVal fields))) = None ->
   fst (LoadStruct arch env (Ptr (StructVal fields))) =
     Ptr (StructVal (map (populated arch env) fields))).
Proof.
  unfold LoadStruct. simpl.
  destruct (first_failing_field arch env fields)
    as [Hall | (pre & f & post & e & -> & Hpre & Hf)].
  - rewrite (LoadStruct_fields_ok _ _ _ Hall). simpl. by repeat split.
  - rewrite LoadStruct_fields_app, (LoadStruct_fields_ok _ _ _ Hpre).
    rewrite (LoadStruct_fields_fail arch env f post e Hf). simpl.
    repeat split; try discriminate.
    intros Hall. apply Forall_app in Hall as [_ Hall].
    inversion Hall as [|? ? Hf' _]; subst. congruence.
Qed.

Lemma LoadStruct_succeeds_iff_witness :
  let host := mkField "HOST" "localhost" (mkValue true (reflect.DString "")) in
  let note := mkField "" "" (mkValue true (reflect.DString "kept")) in
  fst (LoadStruct Arch64 ∅ (Ptr (StructVal [host; note]))) =
    Ptr (StructVal [populated Arch64 ∅ host; populated Arch64 ∅ note]).
Proof.
  intros host note.
  apply (proj2 (LoadStruct_succeeds_iff Arch64 ∅ [host; note])).
  vm_compute. reflexivity.
Defined.

Lemma LoadStruct_fields_kept arch env (fields : list Field) :
  Forall2 fieldKept fields (fst (LoadStruct_fields arch env fields)).
Proof.
  assert (Hrefl : forall f, fieldKept f f).
  { intros f. repeat split. }
  induction fields as [|f fields IH]; simpl; [constructor|].
  destruct (isEmpty (TagEnv f)) eqn:Hname.
  - destruct (LoadStruct_fields arch env fields) as [rest' err].
    simpl in *. constructor; auto.
  - pose proof (setValue_sameShape arch (FieldValue f)
                  (getEnvValue env (TagEnv f) (TagDefault f))) as Hshape.
    assert (Hkept : forall v o,
               setValue arch (FieldValue f)
                 (getEnvValue env (TagEnv f) (TagDefault f)) = (v, o) ->
               fieldKept f (mkField (TagEnv f) (TagDefault f) v)).
    { intros v o Hset. rewrite Hset in Hshape. simpl in Hshape.
      repeat split; try apply Hshape.
      intros Hn. apply isEmpty_true in Hn. congruence. }
    destruct (setValue arch (FieldValue f) _) as [v [e|]] eqn:Hset; simpl.
    + constructor; [by eapply Hkept|].
      clear. induction fields; constructor; auto. repeat split.
    + destruct (LoadStruct_fields arch env fields) as [rest' err].
      simpl in *. constructor; [by eapply Hkept | assumption].
Qed.

(** X7: whatever the environment and the outcome, [LoadStruct] keeps the
    number and the order of the fields; field by field it keeps both
    tags, the kind, the element kind, the settable flag and the length of
    an array, and a field without an [env] tag is exactly as before. *)
Theorem LoadStruct_keeps_fields arch env (fields : list Field) :
  exists fields',
    fst (LoadStruct arch env (Ptr (StructVal fields))) = Ptr (StructVal fields') /\
    length fields' = length fields /\
    (forall i f f',
        fields !! i = Some f -> fields' !! i = Some f' ->
        TagEnv f' = TagEnv f /\
        TagDefault f' = TagDefault f /\
        CanSet (FieldValue f') = CanSet (FieldValue f) /\
        reflect.KindOf (FieldValue f') = reflect.KindOf (FieldValue f) /\
        reflect.ElemKind (FieldValue f') = reflect.ElemKind (FieldValue f) /\
        (reflect.KindOf (FieldValue f) = reflect.Array ->
         reflect.Len (FieldValue f') = reflect.Len (FieldValue f)) /\
        (TagEnv f = "" -> f' = f)).
Proof.
  pose proof (LoadStruct_fields_kept arch env fields) as Hkept.
  unfold LoadStruct. simpl.
  destruct (LoadStruct_fields arch env fields) as [fields' err]. simpl in *.
  exists fields'. split; [reflexivity|]. split.
  - symmetry. by eapply Forall2_length.
  - intros i f f' Hf Hf'.
    destruct (Forall2_lookup_lr _ _ _ _ _ _ Hkept Hf Hf')
      as (He & Hd & (Hcs & Hk & Hek & Hlen) & Hun).
    repeat split; assumption.
Qed.

Lemma LoadStruct_keeps_fields_witness :
  let port := mkField "PORT" "" (mkValue true (reflect.DInt 5)) in
  let note := mkField "" "" (mkValue true (reflect.DString "kept")) in
  exists fields',
    fst (LoadStruct Arch64 {[ "PORT" := "x" ]} (Ptr (StructVal [port; note]))) =
      Ptr (StructVal fields') /\
    fields' !! 1%nat = Some note.
Proof.
  intros port note.
  destruct (LoadStruct_keeps_fields Arch64 {[ "PORT" := "x" ]} [port; note])
    as (fields' & Heq & Hlen & Hall).
  exists fields'. split; [exact Heq|].
  destruct fields' as [|f0 [|f1 [|]]]; try discriminate.
  simpl. f_equal.
  apply (Hall 1%nat note f1 eq_refl eq_refl). reflexivity.
Defined.

Lemma getEnvValue_agree env1 env2 name d :
  env1 !! name = env2 !! name ->
  getEnvValue env1 name d = getEnvValue env2 name d.
Proof. intros H. by rewrite !getEnvValue_lookup, H. Qed.

Lemma LoadStruct_fields_agree arch env1 env2 (fields : list Field) :
  Forall (fun f => TagEnv f <> "" -> env1 !! TagEnv f = env2 !! TagEnv f) fields ->
  LoadStruct_fields arch env1 fields = LoadStruct_fields arch env2 fields.
Proof.
  induction 1 as [|f fields Hf _ IH]; simpl; [reflexivity|].
  destruct (isEmpty (TagEnv f)) eqn:Hname.
  - by rewrite IH.
  - apply isEmpty_false in Hname.
    rewrite (getEnvValue_agree env1 env2 _ _ (Hf Hname)).
    destruct (setValue arch (FieldValue f) _) as [v [e|]]; [reflexivity|].
    by rewrite IH.
Qed.

(** X8: [LoadStruct] reads only the variables named by the [env] tags of
    the struct: under two environments that agree on those names it
    writes the same fields and returns the same error. *)
Theorem LoadStruct_reads_tagged_only arch env1 env2 (cfg : any) :
  (forall f, f ∈ anyFields (anyElem cfg) -> TagEnv f <> "" ->
             env1 !! TagEnv f = env2 !! TagEnv f) ->
  LoadStruct arch env1 cfg = LoadStruct arch env2 cfg.
Proof.
  intros Hagree. unfold LoadStruct.
  destruct (bool_decide _ || bool_decide _); [reflexivity|].
  rewrite (LoadStruct_fields_agree arch env1 env2); [reflexivity|].
  apply Forall_forall. exact Hagree.
Qed.

Lemma LoadStruct_reads_tagged_only_witness :
  let cfg := Ptr (StructVal [mkField "PORT" "8080" (mkValue true (reflect.DInt 0))]) in
  LoadStruct Arch64 {[ "PORT" := "9000"; "HOME" := "/root" ]} cfg =
  LoadStruct Arch64 {[ "PORT" := "9000" ]} cfg.
Proof.
  intros cfg.
  apply (LoadStruct_reads_tagged_only Arch64
           {[ "PORT" := "9000"; "HOME" := "/root" ]} {[ "PORT" := "9000" ]} cfg).
  intros f Hf _. simpl in Hf. apply list_elem_of_singleton in Hf as ->.
  vm_compute. reflexivity.
Defined.

(** ** The size of a parsed list *)

Lemma Split_length (s : string) c :
  length (strings.Split s c) = S (strings.CountByte s c).
Proof.
  induction s as [|c' s IH]; simpl; [reflexivity|].
  destruct (Ascii.eqb c' c); simpl; [by rewrite IH|].
  destruct (strings.Split s c); simpl in *; [discriminate | assumption].
Qed.

(** X9: a list that parses has one element per comma of the raw string
    ([strings.Count] of the comma), plus one; so the list parsers never
    return an empty list (the empty string itself parses to the single
    element 0), and a slice field set from a non-empty raw string is
    never empty. *)
Theorem parsed_list_length arch (value : string) :
  (forall vs, parseIntSlice arch value = Ok vs ->
              length vs = S (strings.Count value ",")) /\
  (forall vs, parseInt64Slice arch value = Ok vs ->
              length vs = S (strings.Count value ",")) /\
  (forall (field : Value) ek xs,
      intElem ek -> Data field = reflect.DSlice ek xs -> value <> "" ->
      snd (setSliceOrArray arch field value) = None ->
      reflect.Len (fst (setSliceOrArray arch field value)) =
        S (strings.Count value ",")).
Proof.
  refine (conj _ (conj _ _)).
  - intros vs. unfold parseIntSlice. rewrite parseIntSlice_loop_tokenLoop.
    intros H%tokenLoop_length. by rewrite H, Split_length.
  - intros vs. unfold parseInt64Slice. rewrite parseInt64Slice_loop_tokenLoop.
    intros H%tokenLoop_length. by rewrite H, Split_length.
  - intros field ek xs Hek Hd Hne.
    rewrite (setSliceOrArray_slice arch field ek xs) by assumption.
    destruct (setSliceOrArray_parse arch 0 _ []) as [vs|e] eqn:Hp; [|discriminate].
    intros _. apply setSliceOrArray_parse_length in Hp.
    unfold reflect.Len. simpl. by rewrite length_map, Hp, Split_length.
Qed.

Lemma parsed_list_length_witness :
  length [8080; 0; 8082] = 3%nat /\
  reflect.Len (fst (setSliceOrArray Arch64
                      (mkValue true (reflect.DSlice reflect.Int64 [])) "7, 8")) = 2%nat.
Proof.
  split.
  - apply (proj1 (parsed_list_length Arch64 "8080,,8082") [8080; 0; 8082]).
    vm_compute. reflexivity.
  - apply (proj2 (proj2 (parsed_list_length Arch64 "7, 8"))
                 (mkValue true (reflect.DSlice reflect.Int64 [])) reflect.Int64 []).
    + by right.
    + reflexivity.
    + discriminate.
    + vm_compute. reflexivity.
Defined.

(** ** The range of a parsed integer *)

Lemma ParseUint_loop_bounds maxVal (s : string) : forall n v,
  0 <= n <= maxVal ->
  strconv.ParseUint_loop maxVal n s = (v, None) -> 0 <= v <= maxVal.
Proof.
  induction s as [|c s IH]; intros n v Hn; simpl.
  - intros [= <-]. assumption.
  - destruct (if (48 <=? byte c) && (byte c <=? 57) then _ else _) as [d|];
      [|discriminate].
    destruct (10 <=? d); [discriminate|].
    destruct (strconv.maxUint64 / 10 + 1 <=? n); [discriminate|].
    destruct ((n * 10 + d) mod 2 ^ 64 <? n * 10) eqn:H1; [discriminate|].
    destruct (maxVal <? (n * 10 + d) mod 2 ^ 64) eqn:H2; [discriminate|].
    simpl. apply IH. apply Z.ltb_ge in H2.
    pose proof (Z.mod_pos_bound (n * 10 + d) (2 ^ 64) ltac:(lia)). lia.
Qed.

Lemma ParseUint_loop_range maxVal (s : string) : forall n v,
  strconv.ParseUint_loop maxVal n s = (v, Some ErrRange) -> v = maxVal.
Proof.
  induction s as [|c s IH]; intros n v; simpl; [discriminate|].
  destruct (if (48 <=? byte c) && (byte c <=? 57) then _ else _) as [d|];
    [|discriminate].
  destruct (10 <=? d); [discriminate|].
  destruct (strconv.maxUint64 / 10 + 1 <=? n); [by intros [= <-]|].
  destruct (_ || _); [by intros [= <-] | apply IH].
Qed.

Lemma ParseInt_as_fits arch fn (s : string) bitSize b v :
  b = (if bitSize =? 0 then IntSize arch else bitSize) ->
  2 <= b <= 64 ->
  strconv.ParseInt_as arch fn s bitSize = Ok v -> fits b v.
Proof.
  intros Hb Hrange. unfold strconv.ParseInt_as.
  destruct s as [|c0 rest]; [discriminate|].
  cbv zeta. rewrite <- Hb.
  set (s' := if Ascii.eqb c0 "+" || Ascii.eqb c0 "-" then rest else String c0 rest).
  unfold strconv.ParseUint. rewrite <- Hb.
  assert (Hpow : 2 ^ b = 2 * 2 ^ (b - 1)).
  { rewrite <- Z.pow_succ_r by lia. f_equal. lia. }
  assert (Hpos : 2 <= 2 ^ (b - 1)).
  { change 2 with (2 ^ 1) at 1. apply Z.pow_le_mono_r; lia. }
  destruct (isEmpty s'); [discriminate|].
  destruct (strconv.ParseUint_loop (2 ^ b - 1) 0 s') as [un [[|]|]] eqn:Hloop;
    [discriminate | |].
  - apply ParseUint_loop_range in Hloop as ->.
    destruct (Ascii.eqb c0 "-"); simpl.
    + rewrite (proj2 (Z.ltb_lt (2 ^ (b - 1)) (2 ^ b - 1))) by lia. discriminate.
    + rewrite (proj2 (Z.leb_le (2 ^ (b - 1)) (2 ^ b - 1))) by lia. discriminate.
  - apply ParseUint_loop_bounds in Hloop; [|lia].
    unfold fits. destruct (Ascii.eqb c0 "-"); simpl.
    + destruct (Z.ltb_spec (2 ^ (b - 1)) un); [discriminate|].
      intros [= <-]. lia.
    + destruct (Z.leb_spec (2 ^ (b - 1)) un); [discriminate|].
      intros [= <-]. lia.
Qed.

Lemma tokenLoop_Forall (P : Z -> Prop) parse wrap parts : forall i acc vs,
  P 0 -> (forall t v, parse t = Ok v -> P v) -> Forall P acc ->
  tokenLoop parse wrap i parts acc = Ok vs -> Forall P vs.
Proof.
  induction parts as [|p parts IH]; intros i acc vs H0 Hparse Hacc; simpl.
  - by intros [= <-].
  - destruct (tokenValue parse p) as [v|e] eqn:Hv; [|discriminate].
    apply IH; auto. apply Forall_app. split; [assumption|].
    constructor; [|constructor].
    unfold tokenValue in Hv. destruct (isEmpty _).
    + by injection Hv as <-.
    + by eapply Hparse.
Qed.

Lemma fits_0 w : 1 <= w -> fits w 0.
Proof.
  intros Hw. unfold fits.
  assert (0 < 2 ^ (w - 1)) by (apply Z.pow_pos_nonneg; lia). lia.
Qed.

(** X10: no parsed number leaves the range of its Go type.  [Atoi] and
    the elements of [parseIntSlice] fit the platform's [int], [ParseInt]
    with 64 bits and the elements of [parseInt64Slice] fit [int64]; so
    [GetInt] and [GetInt64] return an integer of their type whenever the
    caller's default is one. *)
Theorem parsed_integers_fit arch :
  (forall s v, strconv.Atoi arch s = Ok v -> fits (IntSize arch) v) /\
  (forall s v, strconv.ParseInt arch s 64 = Ok v -> fits 64 v) /\
  (forall value vs, parseIntSlice arch value = Ok vs ->
                    Forall (fits (IntSize arch)) vs) /\
  (forall value vs, parseInt64Slice arch value = Ok vs -> Forall (fits 64) vs) /\
  (forall env K D, fits (IntSize arch) D ->
                   fits (IntSize arch) (GetInt arch env K D)) /\
  (forall env K D, fits 64 D -> fits 64 (GetInt64 arch env K D)).
Proof.
  assert (Hint : 2 <= IntSize arch <= 64) by (destruct arch; simpl; lia).
  assert (HA : forall s v, strconv.Atoi arch s = Ok v -> fits (IntSize arch) v).
  { intros s v. by apply (ParseInt_as_fits arch "Atoi" s 0). }
  assert (HP : forall s v, strconv.ParseInt arch s 64 = Ok v -> fits 64 v).
  { intros s v. apply (ParseInt_as_fits arch "ParseInt" s 64); auto. lia. }
  refine (conj HA (conj HP (conj _ (conj _ (conj _ _))))).
  - intros value vs. unfold parseIntSlice. rewrite parseIntSlice_loop_tokenLoop.
    apply tokenLoop_Forall; auto. apply fits_0. lia.
  - intros value vs. unfold parseInt64Slice. rewrite parseInt64Slice_loop_tokenLoop.
    apply tokenLoop_Forall; auto. apply fits_0. lia.
  - intros env K D HD. unfold GetInt.
    destruct (isEmpty _); [assumption|].
    destruct (strconv.Atoi arch _) eqn:Hp; [by eapply HA | assumption].
  - intros env K D HD. unfold GetInt64.
    destruct (isEmpty _); [assumption|].
    destruct (strconv.ParseInt arch _ 64) eqn:Hp; [by eapply HP | assumption].
Qed.

Lemma parsed_integers_fit_witness :
  fits 32 (GetInt Arch32 {[ "N" := "2147483647" ]} "N" 0).
Proof.
  apply (parsed_integers_fit Arch32). vm_compute. split; [discriminate | reflexivity].
Defined.

(** ** Reading back what a variable holds *)

Lemma Join_Itoa_not_empty (seq : list Z) :
  seq <> [] -> isEmpty (strings.Join (map strconv.Itoa seq) ",") = false.
Proof.
  destruct seq as [|n seq]; [done|]. intros _. unfold strings.Join.
  pose proof (Itoa_not_empty n) as Hn.
  destruct seq as [|m seq]; simpl; [assumption|].
  destruct (strconv.Itoa n); [discriminate | reflexivity].
Qed.

(** X11: an accessor returns what its variable holds.  When the variable
    [K] holds a non-empty string, [Get] returns it; when it holds the
    rendering of a boolean, of an integer of the accessor's width, or the
    comma-join of the renderings of a non-empty list of such integers,
    the typed accessor returns that boolean, integer or list, whatever
    the caller's default. *)
Theorem accessors_read_back arch env (K : string) :
  (forall v D, v <> "" -> env !! K = Some v -> Get env K D = v) /\
  (forall b D, env !! K = Some (strconv.FormatBool b) -> GetBool env K D = b) /\
  (forall n D, fits (IntSize arch) n -> env !! K = Some (strconv.Itoa n) ->
               GetInt arch env K D = n) /\
  (forall n D, fits 64 n -> env !! K = Some (strconv.Itoa n) ->
               GetInt64 arch env K D = n) /\
  (forall seq D, seq <> [] -> Forall (fits (IntSize arch)) seq ->
                 env !! K = Some (strings.Join (map strconv.Itoa seq) ",") ->
                 GetIntSlice arch env K D = seq) /\
  (forall seq D, seq <> [] -> Forall (fits 64) seq ->
                 env !! K = Some (strings.Join (map strconv.Itoa seq) ",") ->
                 GetInt64Slice arch env K D = seq).
Proof.
  assert (Hint : 1 <= IntSize arch <= 64) by (destruct arch; simpl; lia).
  refine (conj _ (conj _ (conj _ (conj _ (conj _ _))))).
  - intros v D Hne Hv. unfold Get. rewrite (Getenv_Some _ _ _ Hv).
    apply isEmpty_false in Hne. by rewrite Hne.
  - intros b D Hv. unfold GetBool, Get. rewrite (Getenv_Some _ _ _ Hv).
    by destruct b.
  - intros n D Hn Hv. unfold GetInt. rewrite (Getenv_Some _ _ _ Hv).
    rewrite Itoa_not_empty.
    unfold strconv.Atoi.
    by rewrite (ParseInt_Itoa arch "Atoi" 0 (IntSize arch) n).
  - intros n D Hn Hv. unfold GetInt64. rewrite (Getenv_Some _ _ _ Hv).
    rewrite Itoa_not_empty. unfold strconv.ParseInt.
    by rewrite (ParseInt_Itoa arch "ParseInt" 64 64 n) by (auto; lia).
  - intros seq D Hne Hfit Hv. unfold GetIntSlice.
    rewrite (Getenv_Some _ _ _ Hv), Join_Itoa_not_empty by assumption.
    unfold parseIntSlice. rewrite parseIntSlice_loop_tokenLoop.
    rewrite tokenLoop_Itoa; [reflexivity | assumption |].
    eapply Forall_impl; [exact Hfit|]. intros n Hn. simpl.
    by apply (ParseInt_Itoa arch "Atoi" 0 (IntSize arch)).
  - intros seq D Hne Hfit Hv. unfold GetInt64Slice.
    rewrite (Getenv_Some _ _ _ Hv), Join_Itoa_not_empty by assumption.
    unfold parseInt64Slice. rewrite parseInt64Slice_loop_tokenLoop.
    rewrite tokenLoop_Itoa; [reflexivity | assumption |].
    eapply Forall_impl; [exact Hfit|]. intros n Hn. simpl.
    apply (ParseInt_Itoa arch "ParseInt" 64 64); auto. lia.
Qed.

Lemma accessors_read_back_witness :
  GetInt Arch32 {[ "PORT" := strconv.Itoa (-8080) ]} "PORT" 1 = -8080 /\
  GetInt64Slice Arch32
    {[ "SIZES" := strings.Join (map strconv.Itoa [1024; 4294967296]) "," ]}
    "SIZES" [] = [1024; 4294967296].
Proof.
  split.
  - apply (accessors_read_back Arch32 {[ "PORT" := strconv.Itoa (-8080) ]} "PORT").
    + vm_compute. split; [discriminate | reflexivity].
    + vm_compute. reflexivity.
  - apply (accessors_read_back Arch32
             {[ "SIZES" := strings.Join (map strconv.Itoa [1024; 4294967296]) "," ]}
             "SIZES").
    + discriminate.
    + repeat constructor; vm_compute; discriminate.
    + vm_compute. reflexivity.
Defined.

(** ** int and int64 on a 64-bit platform *)

Lemma ParseInt_as_sameValue arch1 arch2 fn1 fn2 (s : string) bitSize1 bitSize2 :
  (if bitSize1 =? 0 then IntSize arch1 else bitSize1) =
  (if bitSize2 =? 0 then IntSize arch2 else bitSize2) ->
  sameValue (strconv.ParseInt_as arch1 fn1 s bitSize1)
            (strconv.ParseInt_as arch2 fn2 s bitSize2).
Proof.
  intros Hb. unfold strconv.ParseInt_as, strconv.ParseUint.
  destruct s as [|c0 rest]; [exact I|]. cbv zeta. rewrite Hb.
  destruct (isEmpty _); [exact I|].
  destruct (strconv.ParseUint_loop _ 0 _) as [un [[|]|]]; try exact I;
    destruct (negb _ && _); try exact I;
    destruct (_ && _); try exact I; reflexivity.
Qed.

Lemma tokenLoop_sameValue parse1 parse2 wrap1 wrap2 parts : forall i acc,
  (forall t, sameValue (parse1 t) (parse2 t)) ->
  sameValue (tokenLoop parse1 wrap1 i parts acc)
            (tokenLoop parse2 wrap2 i parts acc).
Proof.
  induction parts as [|p parts IH]; intros i acc Hsame; simpl; [reflexivity|].
  unfold tokenValue. destruct (isEmpty _); [by apply IH|].
  pose proof (Hsame (strings.TrimSpace p)) as Ht.
  destruct (parse1 _), (parse2 _); simpl in Ht; try done.
  subst. by apply IH.
Qed.

(** X12: where [int] has 64 bits, [GetInt] and [GetInt64] return the
    same number for every environment, key and default, and so do
    [GetIntSlice] and [GetInt64Slice]; the 64-bit accessors do not depend
    on the platform. *)
Theorem int_is_int64_on_64_bits arch env (K : string) :
  (forall D, GetInt Arch64 env K D = GetInt64 arch env K D) /\
  (forall D, GetIntSlice Arch64 env K D = GetInt64Slice arch env K D).
Proof.
  split; intros D.
  - unfold GetInt, GetInt64. destruct (isEmpty _); [reflexivity|].
    pose proof (ParseInt_as_sameValue Arch64 arch "Atoi" "ParseInt"
                  (os.Getenv env K) 0 64 eq_refl) as Hsame.
    unfold strconv.Atoi, strconv.ParseInt.
    destruct (strconv.ParseInt_as Arch64 _ _ _),
             (strconv.ParseInt_as arch _ _ _); simpl in Hsame; done.
  - unfold GetIntSlice, GetInt64Slice. destruct (isEmpty _); [reflexivity|].
    unfold parseIntSlice, parseInt64Slice.
    rewrite parseIntSlice_loop_tokenLoop, parseInt64Slice_loop_tokenLoop.
    assert (Hsame : sameValue
              (tokenLoop (strconv.Atoi Arch64) ErrInvalidElem 0
                 (strings.Split (os.Getenv env K) ",") [])
              (tokenLoop (fun t => strconv.ParseInt arch t 64) ErrInvalidElem64 0
                 (strings.Split (os.Getenv env K) ",") [])).
    { apply tokenLoop_sameValue. intros t.
      by apply (ParseInt_as_sameValue Arch64 arch "Atoi" "ParseInt" t 0 64). }
    destruct (tokenLoop (strconv.Atoi Arch64) _ _ _ _),
             (tokenLoop (fun t => strconv.ParseInt arch t 64) _ _ _ _);
      simpl in Hsame; done.
Qed.

(** ** The two versions of the accessors *)

(** X13: the earlier accessors [Get], [GetBool], [GetInt] and [GetInt64]
    return the same results as the current ones, for every environment,
    key and default.  For [GetBool] this relies on the rendering of the
    default parsing back to the default. *)
Theorem accessors_v1_agree arch env (K : string) :
  (forall D, Get_v1 env K D = Get env K D) /\
  (forall D, GetBool_v1 env K D = GetBool env K D) /\
  (forall D, GetInt_v1 arch env K D = GetInt arch env K D) /\
  (forall D, GetInt64_v1 arch env K D = GetInt64 arch env K D).
Proof.
  refine (conj _ (conj _ (conj _ _))); intros D.
  - reflexivity.
  - unfold GetBool_v1, GetBool, Get_v1, Get.
    destruct (os.Getenv env K) as [|c v]; simpl; [by destruct D | reflexivity].
  - unfold GetInt_v1, GetInt. by destruct (isEmpty _).
  - unfold GetInt64_v1, GetInt64. by destruct (isEmpty _).
Qed.

Example ToList_ex1 : ToList "a,b,c" "," = Ok ["a"; "b"; "c"].
Proof. vm_compute. reflexivity. Qed.

Example ToList_ex2 : ToList "a::b::" "::" = Ok ["a"; "b"; ""].
Proof. vm_compute. reflexivity. Qed.

Example ToList_ex3 : ToList "aaa" "aa" = Ok [""; "a"].
Proof. vm_compute. reflexivity. Qed.

Example ToList_ex4 :
  ToList (String "104" (String "195" (String "169" "!"))) "" =
    Ok ["h"; String "195" (String "169" ""); "!"].
Proof. vm_compute. reflexivity. Qed.

Example ToList_ex5 : ToList "" "" = Ok [] /\ ToList "" ";" = Ok [""].
Proof. vm_compute. split; reflexivity. Qed.

(** ** ToList *)

Lemma slice_split n : forall s : string, sliceTo n s +:+ sliceFrom n s = s.
Proof.
  induction n as [|n IH]; intros [|c s]; simpl; try reflexivity.
  by rewrite append_cons, IH.
Qed.

Lemma append_assoc (s t u : string) : (s +:+ t) +:+ u = s +:+ (t +:+ u).
Proof.
  induction s as [|c s IH]; [reflexivity|]. by rewrite !append_cons, IH.
Qed.

Lemma HasPrefix_nil (s : string) : strings.HasPrefix s "" = true.
Proof. by destruct s. Qed.

Lemma HasPrefix_spec (p : string) : forall s : string,
  strings.HasPrefix s p = true -> s = p +:+ sliceFrom (String.length p) s.
Proof.
  induction p as [|a p IH]; intros [|c s]; simpl; try done.
  intros [Hc%Ascii.eqb_eq Hp]%andb_true_iff. subst a.
  by rewrite append_cons, <- (IH s Hp).
Qed.

Lemma Index_unfold (s sep : string) :
  strings.Index s sep =
    if strings.HasPrefix s sep then Some O
    else match s with
         | "" => None
         | String _ r => option_map S (strings.Index r sep)
         end.
Proof. by destruct s. Qed.

Lemma Index_spec (sep : string) : forall (s : string) m,
  strings.Index s sep = Some m ->
  s = sliceTo m s +:+ (sep +:+ sliceFrom (m + String.length sep) s).
Proof.
  induction s as [|c s IH]; intros m; rewrite Index_unfold.
  - destruct (strings.HasPrefix "" sep) eqn:Hp; [|discriminate].
    intros [= <-]. by apply HasPrefix_spec.
  - destruct (strings.HasPrefix (String c s) sep) eqn:Hp.
    + intros [= <-]. by apply HasPrefix_spec.
    + destruct (strings.Index s sep) as [m'|] eqn:Hi; [|discriminate].
      intros [= <-]. simpl. rewrite append_cons. f_equal. by apply IH.
Qed.

Lemma concat_cons (sep x : string) (l : list string) :
  l <> [] -> String.concat sep (x :: l) = x +:+ (sep +:+ String.concat sep l).
Proof. by destruct l. Qed.

Lemma genSplit_loop_not_nil k (s sep : string) : strings.genSplit_loop k s sep <> [].
Proof. destruct k; simpl; [done|]. by destruct (strings.Index s sep). Qed.

Lemma genSplit_loop_Join (sep : string) k : forall s : string,
  String.concat sep (strings.genSplit_loop k s sep) = s.
Proof.
  induction k as [|k IH]; intros s; [reflexivity|].
  cbn [strings.genSplit_loop].
  destruct (strings.Index s sep) as [m|] eqn:Hi; [|reflexivity].
  rewrite concat_cons by apply genSplit_loop_not_nil.
  rewrite IH. symmetry. by apply Index_spec.
Qed.

Lemma explode_loop_not_nil k (s : string) : strings.explode_loop k s <> [].
Proof. by destruct k. Qed.

Lemma explode_loop_Join k : forall s : string,
  String.concat "" (strings.explode_loop k s) = s.
Proof.
  induction k as [|k IH]; intros s; [reflexivity|].
  cbn [strings.explode_loop].
  rewrite concat_cons by apply explode_loop_not_nil.
  rewrite IH. apply slice_split.
Qed.

Lemma RuneCount_0 (s : string) : utf8.RuneCountInString s = O -> s = "".
Proof. unfold utf8.RuneCountInString. by destruct s. Qed.

Lemma genSplit_Join (s sep : string) :
  strings.Join (strings.genSplit s sep) sep = s.
Proof.
  unfold strings.Join, strings.genSplit. destruct sep as [|c sep]; simpl.
  - unfold strings.explode.
    destruct (utf8.RuneCountInString s) as [|k] eqn:Hn.
    + by apply RuneCount_0 in Hn as ->.
    + apply explode_loop_Join.
  - apply genSplit_loop_Join.
Qed.

(** X14: [ToList] never returns an error, and joining its result with
    the separator gives the value back, for every value and every
    separator, the empty one included; with a non-empty separator the
    result is never empty. *)
Theorem ToList_round_trip (value separator : string) :
  exists parts,
    ToList value separator = Ok parts /\
    strings.Join parts separator = value /\
    (separator <> "" -> parts <> []).
Proof.
  exists (strings.genSplit value separator).
  refine (conj eq_refl (conj (genSplit_Join _ _) _)).
  intros Hne. unfold strings.genSplit.
  apply isEmpty_false in Hne. rewrite Hne. apply genSplit_loop_not_nil.
Qed.

Lemma ToList_round_trip_witness :
  exists parts,
    ToList "a::b::" "::" = Ok parts /\
    strings.Join parts "::" = "a::b::" /\ parts <> [].
Proof.
  destruct (ToList_round_trip "a::b::" "::") as (parts & H1 & H2 & H3).
  exists parts. refine (conj H1 (conj H2 (H3 _))). discriminate.
Defined.

Lemma CountByte_le (s : string) c : (strings.CountByte s c <= String.length s)%nat.
Proof.
  induction s as [|c' s IH]; simpl; [lia|]. destruct (Ascii.eqb c' c); lia.
Qed.

Lemma Index_byte c : forall s : string,
  match strings.Index s (String c "") with
  | None => strings.CountByte s c = O /\ strings.Split s c = [s]
  | Some m =>
      strings.CountByte s c = S (strings.CountByte (sliceFrom (m + 1) s) c) /\
      strings.Split s c = sliceTo m s :: strings.Split (sliceFrom (m + 1) s) c
  end.
Proof.
  induction s as [|c' s IH]; [by split|].
  rewrite Index_unfold. simpl strings.HasPrefix. rewrite HasPrefix_nil, andb_true_r.
  simpl strings.CountByte. simpl strings.Split.
  destruct (Ascii.eqb c' c); [by split|].
  destruct (strings.Index s (String c "")) as [m|]; simpl.
  - destruct IH as [-> ->]. by split.
  - destruct IH as [-> ->]. by split.
Qed.

Lemma genSplit_loop_byte c k : forall s : string,
  (strings.CountByte s c <= k)%nat ->
  strings.genSplit_loop k s (String c "") = strings.Split s c.
Proof.
  induction k as [|k IH]; intros s Hk; simpl;
    pose proof (Index_byte c s) as Hi;
    destruct (strings.Index s (String c "")) as [m|].
  - destruct Hi as [Hc _]. lia.
  - by destruct Hi as [_ ->].
  - destruct Hi as [Hc ->]. f_equal. apply IH. lia.
  - by destruct Hi as [_ ->].
Qed.

(** X15: with a separator of one byte, [ToList] cuts exactly as the list
    parsers do: [parseIntSlice] and [parseInt64Slice] run their loops
    over the tokens that [ToList] returns for the comma. *)
Theorem ToList_one_byte arch (value : string) :
  (forall c, ToList value (String c "") = Ok (strings.Split value c)) /\
  (forall parts, ToList value "," = Ok parts ->
                 parseIntSlice arch value = parseIntSlice_loop arch 0 parts [] /\
                 parseInt64Slice arch value = parseInt64Slice_loop arch 0 parts []).
Proof.
  assert (H : forall c, ToList value (String c "") = Ok (strings.Split value c)).
  { intros c. unfold ToList, strings.genSplit. simpl. f_equal.
    apply genSplit_loop_byte. pose proof (CountByte_le value c). lia. }
  split; [exact H|].
  intros parts. rewrite H. by intros [= <-].
Qed.

Lemma ToList_one_byte_witness :
  parseIntSlice Arch64 "1, 2" = parseIntSlice_loop Arch64 0 ["1"; " 2"] [].
Proof.
  apply (proj2 (ToList_one_byte Arch64 "1, 2") ["1"; " 2"]).
  vm_compute. reflexivity.
Defined.

Example TestToList_semicolon : ToList "a;b;c" ";" = Ok ["a"; "b"; "c"].
Proof. vm_compute. reflexivity. Qed.

Example TestToList_single : ToList "single" "," = Ok ["single"].
Proof. vm_compute. reflexivity. Qed.

Example TestToList_space : ToList "a b c" " " = Ok ["a"; "b"; "c"].
Proof. vm_compute. reflexivity. Qed.

Example ReplaceAll_ex1 :
  strings.ReplaceAll "a===b==" "==" "-" = "a-=b-" /\
  strings.ReplaceAll "ab" "" "-" = "-a-b-" /\
  strings.ReplaceAll "" "" "-" = "-" /\
  strings.ReplaceAll "abc" "x" "y" = "abc".
Proof. vm_compute. repeat split; reflexivity. Qed.

Example TrimByte_ex1 : strings.TrimByte "  # x  " " " = "# x".
Proof. vm_compute. reflexivity. Qed.

Example ToList_v1_ex1 :
  ToList_v1 ∅ "a==b;c" "," = Lines [String "a" (String "010" "b"); "c"].
Proof. vm_compute. reflexivity. Qed.

Example ToList_v1_ex2 :
  ToList_v1 {[ "hosts" := String "097" (String "013" (String "010"
                            (" # no" +:+ String "010" ("b" +:+ String "010" "")))) ]}
            "@hosts" (String "010" "")
  = Lines ["a"; "b"].
Proof. vm_compute. reflexivity. Qed.

Example ToList_v1_ex3 : ToList_v1 ∅ "@missing" "," = ReadError "missing".
Proof. vm_compute. reflexivity. Qed.

(** ** The earlier ToList *)

(** X16: for a value that does not start with [@], the earlier [ToList]
    reads no file and ignores its separator argument: whatever the files
    and the separator, it returns the same non-empty list, whose join
    with the semicolon is the value with each [==] turned into a line
    feed. *)
Theorem ToList_v1_inline files (value separator : string) :
  strings.HasPrefix value "@" = false ->
  exists parts,
    ToList_v1 files value separator = Lines parts /\
    parts <> [] /\
    strings.Join parts ";" = strings.ReplaceAll value "==" (String "010" "") /\
    (forall files' separator', ToList_v1 files' value separator' = Lines parts).
Proof.
  intros Hat. unfold ToList_v1. rewrite Hat.
  eexists. refine (conj eq_refl (conj _ (conj (genSplit_Join _ _) _))).
  - apply genSplit_loop_not_nil.
  - reflexivity.
Qed.

Lemma ToList_v1_inline_witness :
  exists parts,
    ToList_v1 ∅ "a==b;c" "," = Lines parts /\
    parts <> [] /\
    strings.Join parts ";" = strings.ReplaceAll "a==b;c" "==" (String "010" "") /\
    (forall files' separator', ToList_v1 files' "a==b;c" separator' = Lines parts).
Proof. apply (ToList_v1_inline ∅ "a==b;c" ","). reflexivity. Defined.

Lemma ToList_v1_loop_filter lines : forall result,
  ToList_v1_loop lines result = result ++ filter (fun l => keptLine l = true) lines.
Proof.
  induction lines as [|line lines IH]; intros result; simpl.
  - by rewrite app_nil_r.
  - change (negb (strings.HasPrefix (strings.TrimByte line " ") "#"))
      with (keptLine line).
    rewrite filter_cons.
    destruct (decide (keptLine line = true)) as [Hk|Hk].
    + by rewrite Hk, IH, <- app_assoc.
    + apply not_true_is_false in Hk. by rewrite Hk, IH.
Qed.

Lemma CountByte_0 c (s : string) :
  strings.CountByte s c = O ->
  allChars (fun c' => negb (Ascii.eqb c' c)) s = true.
Proof.
  induction s as [|c' s IH]; simpl; [done|].
  destruct (Ascii.eqb c' c); [discriminate|]. exact IH.
Qed.

Lemma Index_byte_before c : forall (s : string) m,
  strings.Index s (String c "") = Some m ->
  allChars (fun c' => negb (Ascii.eqb c' c)) (sliceTo m s) = true.
Proof.
  induction s as [|c' s IH]; intros m; rewrite Index_unfold.
  - discriminate.
  - simpl strings.HasPrefix. rewrite HasPrefix_nil, andb_true_r.
    destruct (Ascii.eqb c' c) eqn:Hc; [by intros [= <-]|].
    destruct (strings.Index s (String c "")) as [m'|] eqn:Hi; [|discriminate].
    intros [= <-]. simpl. rewrite Hc. simpl. by apply IH.
Qed.

Lemma Replace_loop_removes c k : forall s : string,
  (strings.CountByte s c <= k)%nat ->
  allChars (fun c' => negb (Ascii.eqb c' c))
           (strings.Replace_loop k s (String c "") "") = true.
Proof.
  induction k as [|k IH]; intros s Hk; simpl;
    pose proof (Index_byte c s) as Hi;
    pose proof (Index_byte_before c s) as Hb;
    destruct (strings.Index s (String c "")) as [m|].
  - destruct Hi as [Hc _]. lia.
  - destruct Hi as [Hc _]. by apply CountByte_0.
  - destruct Hi as [Hc _]. rewrite allChars_app, (Hb m eq_refl). simpl.
    change (String.append "" ?x) with x.
    replace (m + 1)%nat with (m + 1)%nat in Hc by reflexivity.
    apply IH. lia.
  - destruct Hi as [Hc _]. by apply CountByte_0.
Qed.

Lemma ReplaceAll_removes c (s : string) :
  allChars (fun c' => negb (Ascii.eqb c' c))
           (strings.ReplaceAll s (String c "") "") = true.
Proof.
  unfold strings.ReplaceAll. simpl String.eqb. cbv iota.
  change (strings.Count s (String c "")) with (strings.CountByte s c).
  destruct (strings.CountByte s c) as [|m] eqn:Hc.
  - by apply CountByte_0.
  - simpl isEmpty. cbv iota. apply Replace_loop_removes. lia.
Qed.

Lemma trimLeftByte_chars P (s : string) c :
  allChars P s = true -> allChars P (strings.trimLeftByte s c) = true.
Proof.
  induction s as [|c' s IH]; simpl; [done|].
  intros [Hc Hs]%andb_true_iff.
  destruct (Ascii.eqb c' c); [by apply IH|]. simpl. by rewrite Hc, Hs.
Qed.

Lemma rev_chars P (s : string) : allChars P (String.rev s) = allChars P s.
Proof. unfold String.rev. rewrite rev_app_chars. simpl. apply andb_true_r. Qed.

Lemma TrimByte_chars P (s : string) c :
  allChars P s = true -> allChars P (strings.TrimByte s c) = true.
Proof.
  intros Hs. unfold strings.TrimByte, strings.trimRightByte.
  apply trimLeftByte_chars. rewrite rev_chars.
  apply trimLeftByte_chars. by rewrite rev_chars.
Qed.

Lemma concat_chars P (sep : string) (parts : list string) :
  allChars P (String.concat sep parts) = true ->
  Forall (fun p => allChars P p = true) parts.
Proof.
  induction parts as [|p parts IH]; [constructor|].
  destruct parts as [|q parts].
  - simpl. by repeat constructor.
  - rewrite concat_cons by done. rewrite !allChars_app.
    intros [Hp [_ Hrest]%andb_true_iff]%andb_true_iff.
    constructor; [assumption | by apply IH].
Qed.

Lemma genSplit_chars P (s sep : string) :
  allChars P s = true ->
  Forall (fun p => allChars P p = true) (strings.genSplit s sep).
Proof.
  intros Hs. apply (concat_chars P sep).
  change (String.concat sep (strings.genSplit s sep))
    with (strings.Join (strings.genSplit s sep) sep).
  by rewrite genSplit_Join.
Qed.

(** X17: for a value [@name], the earlier [ToList] returns the error of
    reading [name] when the file cannot be read.  Otherwise it returns,
    in their order, the pieces of the file's content (carriage returns
    removed, line feeds trimmed at both ends, cut at the separator) that
    are not comments; no returned line starts with [#] after its blanks
    are trimmed, and none holds a carriage return. *)
Theorem ToList_v1_file files (name separator : string) :
  (files !! name = None ->
   ToList_v1 files (String "@" name) separator = ReadError name) /\
  (forall data, files !! name = Some data ->
     let content :=
       strings.TrimByte (strings.ReplaceAll data (String "013" "") "") "010" in
     exists lines,
       ToList_v1 files (String "@" name) separator = Lines lines /\
       lines = filter (fun l => keptLine l = true)
                      (strings.genSplit content separator) /\
       Forall (fun l => strings.HasPrefix (strings.TrimByte l " ") "#" = false /\
                        allChars notCR l = true) lines).
Proof.
  split.
  - intros Hf. unfold ToList_v1, os.ReadFile. simpl.
    by rewrite HasPrefix_nil, Hf.
  - intros data Hf content. unfold ToList_v1, os.ReadFile. simpl.
    rewrite HasPrefix_nil, Hf.
    fold content. rewrite ToList_v1_loop_filter. simpl.
    eexists. refine (conj eq_refl (conj eq_refl _)).
    assert (Hcr : Forall (fun p => allChars notCR p = true)
                         (strings.genSplit content separator)).
    { apply genSplit_chars. unfold content. apply TrimByte_chars.
      apply ReplaceAll_removes. }
    apply Forall_forall. intros l [Hkept Hin]%list_elem_of_filter.
    split.
    + unfold keptLine in Hkept. by apply negb_true_iff in Hkept.
    + rewrite Forall_forall in Hcr. by apply Hcr.
Qed.

Lemma ToList_v1_file_witness :
  ToList_v1 ∅ "@missing" "," = ReadError "missing" /\
  exists lines,
    ToList_v1 {[ "hosts" := "a,#b, # c,d" ]} "@hosts" "," = Lines lines /\
    lines = ["a"; "d"].
Proof.
  split.
  - apply (proj1 (ToList_v1_file ∅ "missing" ",")). reflexivity.
  - assert (Hf : ({[ "hosts" := "a,#b, # c,d" ]} : gmap string string) !! "hosts"
                 = Some "a,#b, # c,d") by (vm_compute; reflexivity).
    destruct (proj2 (ToList_v1_file {[ "hosts" := "a,#b, # c,d" ]} "hosts" ",")
                    "a,#b, # c,d" Hf) as (lines & H1 & H2 & _).
    exists lines. split; [exact H1|]. rewrite H2. vm_compute. reflexivity.
Defined.

(** ** Lists on the struct path *)

Lemma fits_int_64 arch n : fits (IntSize arch) n -> fits 64 n.
Proof. unfold fits. destruct arch; simpl; lia. Qed.

Lemma map_storeInt_fits arch ek (seq : list Z) :
  (ek = reflect.Int64 \/ ek = reflect.Int /\ Forall (fits (IntSize arch)) seq) ->
  map (reflect.storeInt arch ek) seq = seq.
Proof.
  intros [-> | [-> Hfit]].
  - induction seq as [|n seq IH]; simpl; [reflexivity | by rewrite IH].
  - induction Hfit as [|n seq Hn _ IH]; simpl; [reflexivity|].
    rewrite IH. f_equal. apply wrapSigned_fits; [|assumption].
    destruct arch; simpl; lia.
Qed.

Lemma setSliceOrArray_parse_Itoa arch (seq : list Z) :
  seq <> [] -> Forall (fits 64) seq ->
  setSliceOrArray_parse arch 0
    (strings.Split (strings.Join (map strconv.Itoa seq) ",") ",") [] = Ok seq.
Proof.
  intros Hne Hfit. rewrite setSliceOrArray_parse_tokenLoop.
  apply tokenLoop_Itoa; [assumption|].
  eapply Forall_impl; [exact Hfit|]. intros n Hn. simpl.
  apply (ParseInt_Itoa arch "ParseInt" 64 64); auto. lia.
Qed.

Lemma Split_Join_Itoa (seq : list Z) :
  seq <> [] ->
  strings.Split (strings.Join (map strconv.Itoa seq) ",") "," = map strconv.Itoa seq.
Proof.
  intros Hne. apply Split_Join; [by destruct seq|].
  apply Forall_map, Forall_forall. intros n _. simpl.
  eapply allChars_impl; [apply numeric_notComma | apply Itoa_numeric].
Qed.

(** X18: on the struct path a list of integers is read back exactly.
    For a settable slice, or array of the same length, whose elements are
    [int64] (any 64-bit integers) or [int] (integers that fit the
    platform's [int]), the comma-join of the renderings of a non-empty
    sequence sets the field to that sequence, without error. *)
Theorem setValue_list_round_trip arch (field : Value) mk ek xs (seq : list Z) :
  CanSet field = true ->
  seq <> [] ->
  (ek = reflect.Int64 /\ Forall (fits 64) seq \/
   ek = reflect.Int /\ Forall (fits (IntSize arch)) seq) ->
  (mk = reflect.DSlice \/ mk = reflect.DArray /\ length seq = length xs) ->
  Data field = mk ek xs ->
  setValue arch field (strings.Join (map strconv.Itoa seq) ",") =
    (reflect.withData field (mk ek seq), None).
Proof.
  intros Hcs Hne Hek Hmk Hd.
  assert (Hint : intElem ek) by (destruct Hek as [[-> _] | [-> _]]; [by right | by left]).
  assert (H64 : Forall (fits 64) seq).
  { destruct Hek as [[_ H] | [_ H]]; [assumption|].
    eapply Forall_impl; [exact H | apply fits_int_64]. }
  assert (Hstore : map (reflect.storeInt arch ek) seq = seq).
  { apply map_storeInt_fits. destruct Hek as [[-> _] | [-> H]]; auto. }
  assert (Hval : strings.Join (map strconv.Itoa seq) "," <> "").
  { apply isEmpty_false. by apply Join_Itoa_not_empty. }
  destruct Hmk as [-> | [-> Hlen]].
  - unfold setValue, reflect.KindOf. rewrite Hcs, Hd. simpl.
    rewrite (setSliceOrArray_slice arch field ek xs) by assumption.
    by rewrite setSliceOrArray_parse_Itoa, Hstore.
  - unfold setValue, reflect.KindOf. rewrite Hcs, Hd. simpl.
    rewrite (setSliceOrArray_array arch field ek xs) by assumption.
    assert (Hl : length (strings.Split (strings.Join (map strconv.Itoa seq) ",") ",")
                 = length xs)
      by (by rewrite Split_Join_Itoa, length_map).
    rewrite (bool_decide_eq_true_2 _ Hl).
    by rewrite setSliceOrArray_parse_Itoa, Hstore.
Qed.

Lemma setValue_list_round_trip_witness :
  setValue Arch32 (mkValue true (reflect.DArray reflect.Int64 [0; 0]))
           (strings.Join (map strconv.Itoa [-1; 4294967296]) ",") =
    (mkValue true (reflect.DArray reflect.Int64 [-1; 4294967296]), None).
Proof.
  apply (setValue_list_round_trip Arch32
           (mkValue true (reflect.DArray reflect.Int64 [0; 0]))
           reflect.DArray reflect.Int64 [0; 0] [-1; 4294967296]).
  - reflexivity.
  - discriminate.
  - left. split; [reflexivity|]. repeat constructor; vm_compute; discriminate.
  - right. split; reflexivity.
  - reflexivity.
Defined.

(** ** The errors of LoadStruct *)

Lemma LoadStruct_fields_error arch env (fields : list Field) e :
  snd (LoadStruct_fields arch env fields) = Some e ->
  exists f cause,
    f ∈ fields /\ TagEnv f <> "" /\
    snd (setValue arch (FieldValue f)
           (getEnvValue env (TagEnv f) (TagDefault f))) = Some cause /\
    e = ErrEnv (TagEnv f) cause.
Proof.
  induction fields as [|f fields IH]; simpl; [discriminate|].
  destruct (isEmpty (TagEnv f)) eqn:Hname.
  - destruct (LoadStruct_fields arch env fields) as [rest' err]. simpl in *.
    intros He. destruct (IH He) as (g & cause & Hin & Hg).
    exists g, cause. split; [by apply list_elem_of_further | exact Hg].
  - destruct (setValue arch (FieldValue f) _) as [v [cause|]] eqn:Hset; simpl.
    + intros [= <-]. exists f, cause. rewrite Hset.
      repeat split; [apply list_elem_of_here | by apply isEmpty_false].
    + destruct (LoadStruct_fields arch env fields) as [rest' err]. simpl in *.
      intros He. destruct (IH He) as (g & cause & Hin & Hg).
      exists g, cause. split; [by apply list_elem_of_further | exact Hg].
Qed.

(** X19: an error of [LoadStruct] is either the precondition error, and
    then [cfg] is not a pointer to a struct, or the error of [setValue]
    on an annotated field of the struct, wrapped under the name of that
    field's variable; no error comes from a field without an [env] tag. *)
Theorem LoadStruct_error_origin arch env (cfg : any) e :
  snd (LoadStruct arch env cfg) = Some e ->
  (e = ErrCfg /\
   (anyKind cfg <> reflect.Pointer \/ anyKind (anyElem cfg) <> reflect.Struct)) \/
  (exists f cause,
      f ∈ anyFields (anyElem cfg) /\ TagEnv f <> "" /\
      snd (setValue arch (FieldValue f)
             (getEnvValue env (TagEnv f) (TagDefault f))) = Some cause /\
      e = ErrEnv (TagEnv f) cause).
Proof.
  unfold LoadStruct.
  destruct (bool_decide (anyKind cfg <> reflect.Pointer)) eqn:H1; simpl.
  - intros [= <-]. left. split; [reflexivity|]. left.
    by apply bool_decide_eq_true in H1.
  - destruct (bool_decide (anyKind (anyElem cfg) <> reflect.Struct)) eqn:H2; simpl.
    + intros [= <-]. left. split; [reflexivity|]. right.
      by apply bool_decide_eq_true in H2.
    + pose proof (LoadStruct_fields_error arch env (anyFields (anyElem cfg)) e) as He.
      destruct (LoadStruct_fields arch env (anyFields (anyElem cfg))) as [fs err].
      simpl in *. intros ->. right. by apply He.
Qed.

Lemma LoadStruct_error_origin_witness :
  let port := mkField "PORT" "" (mkValue true (reflect.DInt 0)) in
  let e := ErrEnv "PORT" (NumError "ParseInt" "x" ErrSyntax) in
  (e = ErrCfg /\
   (anyKind (Ptr (StructVal [port])) <> reflect.Pointer \/
    anyKind (anyElem (Ptr (StructVal [port]))) <> reflect.Struct)) \/
  (exists f cause,
      f ∈ [port] /\ TagEnv f <> "" /\
      snd (setValue Arch64 (FieldValue f)
             (getEnvValue {[ "PORT" := "x" ]} (TagEnv f) (TagDefault f))) = Some cause /\
      e = ErrEnv (TagEnv f) cause).
Proof.
  intros port e.
  apply (LoadStruct_error_origin Arch64 {[ "PORT" := "x" ]} (Ptr (StructVal [port])) e).
  vm_compute. reflexivity.
Defined.
